(** * CLStarter: class-incremental learning driver, checked against its specification

    A shallow embedding of the three Python sources

      - [utils/data/cifar100.py]  (task sequence generator),
      - [model/iCaRL.py]          (incremental model state),
      - [src/main.py]             (task learner and continual-learning evaluator),

    followed by the theorems that settle the specification's claims.

    Python objects that are mutated in place are modelled by explicit state
    passing; an exception is a [Raise] result that leaves the state as it was
    when the exception was thrown. *)

From Stdlib Require Import ZArith QArith.
From stdpp Require Import base option list strings gmap.

Local Open Scope string_scope.
Local Open Scope list_scope.
Local Open Scope Z_scope.
Local Open Scope nat_scope.

(* ===================================================================== *)
(** * The fragment of the Python runtime the sources rely on *)
(* ===================================================================== *)

Module Py.

(** The exception classes that the modelled code can raise, and one class
    for whatever an external collaborator throws. *)
Inductive exn : Type :=
| IndexError
| ZeroDivisionError
| RuntimeError
| AttributeError
| TypeError
| External (code : nat).

Inductive result (A : Type) : Type :=
| Ok (a : A)
| Raise (e : exn).
Arguments Ok {A} a.
Arguments Raise {A} e.

(** A statement run from state [S]: its outcome and the state it leaves. *)
Definition M (S A : Type) : Type := S -> result A * S.

Definition ret {S A} (a : A) : M S A := fun s => (Ok a, s).
Definition raise {S A} (e : exn) : M S A := fun s => (Raise e, s).
Definition bind {S A B} (m : M S A) (k : A -> M S B) : M S B :=
  fun s => match m s with
           | (Ok a, s') => k a s'
           | (Raise e, s') => (Raise e, s')
           end.
Definition gets {S A} (f : S -> A) : M S A := fun s => (Ok (f s), s).
Definition modify {S} (f : S -> S) : M S unit := fun s => (Ok tt, f s).

(** [try: body finally: fin].  The [finally] suite always runs; when it
    completes, the outcome of [body] (value or exception) stands; when it
    raises, its own exception replaces that outcome. *)
Definition try_finally {S A} (body : M S A) (fin : M S unit) : M S A :=
  fun s => match body s with
           | (r, s') => match fin s' with
                        | (Ok _, s'') => (r, s'')
                        | (Raise e, s'') => (Raise e, s'')
                        end
           end.

(** [for x in xs: body x] *)
Fixpoint for_each {S A} (xs : list A) (body : A -> M S unit) : M S unit :=
  match xs with
  | [] => ret tt
  | x :: xs' => bind (body x) (fun _ => for_each xs' body)
  end.

(** [for x in xs: acc = body acc x], returning the final [acc]. *)
Fixpoint fold_each {S A B} (xs : list A) (acc : B) (body : B -> A -> M S B)
  : M S B :=
  match xs with
  | [] => ret acc
  | x :: xs' => bind (body acc x) (fun acc' => fold_each xs' acc' body)
  end.

(** A statement run from a state satisfying [P] ends, by a value or by an
    exception, in a state and with an outcome satisfying [Q]. *)
Definition hoare {S A} (P : S -> Prop) (m : M S A)
    (Q : result A -> S -> Prop) : Prop :=
  forall s, P s -> Q (m s).1 (m s).2.

(** The postcondition that asks [I] of the state after a value and [E] of
    the exception and the state after an exception. *)
Definition post {S A} (I : S -> Prop) (E : exn -> S -> Prop)
    (r : result A) (s : S) : Prop :=
  match r with
  | Ok _ => I s
  | Raise e => E e s
  end.

(** [a // b] on Python integers: floor division, an error on [b = 0]. *)
Definition floordiv {S} (a b : Z) : M S Z :=
  if (b =? 0)%Z then raise ZeroDivisionError else ret (a / b)%Z.

(** [range n] for a Python integer [n]: empty when [n <= 0]. *)
Definition range (n : Z) : list nat := seq 0 (Z.to_nat n).

(** [l[a:b]] for non-negative bounds; out-of-range bounds are clipped. *)
Definition slice {A} (a b : nat) (l : list A) : list A :=
  take (b - a) (drop a l).

(** [x[i], x[j] = x[j], x[i]]: both reads happen before the writes.  With an
    index out of range Python raises; [shuffle] never passes one, and the
    list is then returned as it is. *)
Definition swap {A} (i j : nat) (x : list A) : list A :=
  match x !! i, x !! j with
  | Some xi, Some xj => <[j:=xi]> (<[i:=xj]> x)
  | _, _ => x
  end.

(** [random.shuffle]: for [i] from [len(x) - 1] down to [1], swap [x[i]]
    with [x[randbelow(i + 1)]].  The generator is a list of raw draws; a
    draw is reduced below the bound, an exhausted generator yields [0]. *)
Fixpoint shuffle_loop {A} (i : nat) (draws : list nat) (x : list A)
  : list A * list nat :=
  match i with
  | 0 => (x, draws)
  | S i' => shuffle_loop i' (tail draws) (swap i (hd 0 draws mod (i + 1)) x)
  end.

Definition shuffle {A} (draws : list nat) (x : list A) : list A * list nat :=
  shuffle_loop (length x - 1) draws x.

End Py.

Import Py.

Declare Scope py_scope.
Delimit Scope py_scope with py.
Notation "'let*' x ':=' m 'in' k" := (bind m (fun x => k))
  (at level 10, x name, m at level 100, k at level 200) : py_scope.
Notation "m ;; k" := (bind m (fun _ => k))
  (at level 100, k at level 200, right associativity) : py_scope.
Local Open Scope py_scope.

(* ===================================================================== *)
(** * utils/data/cifar100.py *)
(* ===================================================================== *)

Module Cifar100.

(** What [get_cifar100_tasks] can touch: the list object its [cls_names]
    argument refers to (the caller keeps the same reference, so this is also
    what the caller sees afterwards) and the global random generator. *)
Record World : Type := mkWorld {
  cls_names : list string;
  rng : list nat
}.

(** The literal returned under [fixed_tasks]. *)
Definition fixed_tasks_table : list (list string) :=
  [ ["apple"; "aquarium_fish"; "baby"; "bear"; "beaver"; "bed"; "bee";
     "beetle"; "bicycle"; "bottle"];
    ["bowl"; "boy"; "bridge"; "bus"; "butterfly"; "camel"; "can"; "castle";
     "caterpillar"; "cattle"];
    ["chair"; "chimpanzee"; "clock"; "cloud"; "cockroach"; "couch"; "crab";
     "crocodile"; "cup"; "dinosaur"];
    ["dolphin"; "elephant"; "flatfish"; "forest"; "fox"; "girl"; "hamster";
     "house"; "kangaroo"; "keyboard"];
    ["lamp"; "lawn_mower"; "leopard"; "lion"; "lizard"; "lobster"; "man";
     "maple_tree"; "motorcycle"; "mountain"];
    ["mouse"; "mushroom"; "oak_tree"; "orange"; "orchid"; "otter";
     "palm_tree"; "pear"; "pickup_truck"; "pine_tree"];
    ["plain"; "plate"; "poppy"; "porcupine"; "possum"; "rabbit"; "raccoon";
     "ray"; "road"; "rocket"];
    ["rose"; "sea"; "seal"; "shark"; "shrew"; "skunk"; "skyscraper"; "snail";
     "snake"; "spider"];
    ["squirrel"; "streetcar"; "sunflower"; "sweet_pepper"; "table"; "tank";
     "telephone"; "television"; "tiger"; "tractor"];
    ["train"; "trout"; "tulip"; "turtle"; "wardrobe"; "whale"; "willow_tree";
     "wolf"; "woman"; "worm"] ].

(** [random.shuffle(cls_names)]: the list object is rewritten in place. *)
Definition random_shuffle : M World unit :=
  modify (fun w => let '(x, d) := shuffle (rng w) (cls_names w) in
                   {| cls_names := x; rng := d |}).

(** [get_cifar100_tasks(cls_names, task_num, fixed_tasks)] *)
Definition get_cifar100_tasks (task_num : Z) (fixed_tasks : bool)
  : M World (list (list string)) :=
  if fixed_tasks then ret fixed_tasks_table
  else
    random_shuffle ;;
    let* names := gets cls_names in
    let* n := floordiv (Z.of_nat (length names)) task_num in
    ret (map (fun i => slice (i * 10) ((i + 1) * 10) names) (range n)).

End Cifar100.

(* ===================================================================== *)
(** * model/iCaRL.py *)
(* ===================================================================== *)

Module ICaRL.

(** Objects live in a store and are designated by references. *)
Definition ref := nat.

Section Model.

(** Tensor elements, with the arithmetic [get_preds] needs.  [fltb] is
    the comparison the minimum-finder uses; [norm2] is the 2-norm of a
    vector. *)
Variable F : Type.
Variable fsub fdiv : F -> F -> F.
Variable norm2 : list F -> F.
Variable fltb : F -> F -> bool.

(** A ResNet with its parameters, an image batch, and the forward pass
    giving one embedding row per example. *)
Variable Net Batch : Type.
Variable net_forward : Net -> Batch -> list (list F).

(** The initialiser of [nn.Linear]: the entry at (row, column) of the
    weight of the linear layer allocated at a reference. *)
Variable init_weight : ref -> nat -> nat -> F.

(** The store ([linears]: the weight of each [nn.Linear], one row per
    output; [nets]: each ResNet) and the attributes of [self].  An
    attribute holding an object holds a reference, [None] for Python's
    [None].  [exemplar_means] keeps the insertion order of the dict. *)
Record World : Type := mkWorld {
  linears : gmap ref (list (list F));
  nets : gmap ref Net;
  feature_dim : nat;
  feature_extractor : option ref;
  previous_feature_extractor : option ref;
  weight_vectors : list ref;
  current_weight_vectors : option ref;
  exemplar_means : list (string * list F);
  current_task : option (list string);
  learned_classes : list string
}.

Definition set_linears v (w : World) : World :=
  mkWorld v (nets w) (feature_dim w) (feature_extractor w)
    (previous_feature_extractor w) (weight_vectors w)
    (current_weight_vectors w) (exemplar_means w) (current_task w)
    (learned_classes w).
Definition set_nets v (w : World) : World :=
  mkWorld (linears w) v (feature_dim w) (feature_extractor w)
    (previous_feature_extractor w) (weight_vectors w)
    (current_weight_vectors w) (exemplar_means w) (current_task w)
    (learned_classes w).
Definition set_feature_extractor v (w : World) : World :=
  mkWorld (linears w) (nets w) (feature_dim w) v
    (previous_feature_extractor w) (weight_vectors w)
    (current_weight_vectors w) (exemplar_means w) (current_task w)
    (learned_classes w).
Definition set_previous_feature_extractor v (w : World) : World :=
  mkWorld (linears w) (nets w) (feature_dim w) (feature_extractor w)
    v (weight_vectors w)
    (current_weight_vectors w) (exemplar_means w) (current_task w)
    (learned_classes w).
Definition set_weight_vectors v (w : World) : World :=
  mkWorld (linears w) (nets w) (feature_dim w) (feature_extractor w)
    (previous_feature_extractor w) v
    (current_weight_vectors w) (exemplar_means w) (current_task w)
    (learned_classes w).
Definition set_current_weight_vectors v (w : World) : World :=
  mkWorld (linears w) (nets w) (feature_dim w) (feature_extractor w)
    (previous_feature_extractor w) (weight_vectors w)
    v (exemplar_means w) (current_task w)
    (learned_classes w).
Definition set_current_task v (w : World) : World :=
  mkWorld (linears w) (nets w) (feature_dim w) (feature_extractor w)
    (previous_feature_extractor w) (weight_vectors w)
    (current_weight_vectors w) (exemplar_means w) v
    (learned_classes w).
Definition set_learned_classes v (w : World) : World :=
  mkWorld (linears w) (nets w) (feature_dim w) (feature_extractor w)
    (previous_feature_extractor w) (weight_vectors w)
    (current_weight_vectors w) (exemplar_means w) (current_task w)
    v.

(** [__init__]: the pretrained backbone at reference 0, nothing learned. *)
Definition init (dim : nat) (backbone : Net) : World :=
  mkWorld ∅ {[ 0 := backbone ]} dim (Some 0) None [] None [] None [].

(** Reading an object through a reference.  A reference always designates
    a live object; the failing branch only makes the function total. *)
Definition deref {V} (store : World -> gmap ref V) (l : ref) : M World V :=
  let* s := gets store in
  match s !! l with
  | Some v => ret v
  | None => raise RuntimeError
  end.

(** [nn.Linear(in_features, out_features, bias=False)] allocated at [l]:
    [out_features] rows of [in_features] freshly initialised entries. *)
Definition new_linear (l : ref) (in_features out_features : nat)
  : list (list F) :=
  map (fun r => map (init_weight l r) (seq 0 in_features))
      (seq 0 out_features).

(** [dst[:k, :] = src[:, :]] on weights of one width.  The source must
    have as many rows as the target slice, or exactly one row, which is
    then broadcast; anything else is a shape error. *)
Definition assign_leading_rows (k : nat) (src dst : list (list F))
  : M World (list (list F)) :=
  let k' := k `min` length dst in
  if decide (length src = k') then ret (src ++ drop k' dst)
  else match src with
       | [row] => ret (replicate k' row ++ drop k' dst)
       | _ => raise RuntimeError
       end.

(** [xs[-1]] and [xs[-2]] *)
Definition index_from_end {A} (n : nat) (xs : list A) : M World A :=
  match reverse xs !! n with
  | Some x => ret x
  | None => raise IndexError
  end.

(** [set_new_task], up to its [yield]. *)
Definition set_new_task_enter (task : list string) : M World unit :=
  let num_cls := length task in
  modify (set_current_task (Some task)) ;;
  let* learned := gets learned_classes in
  let* dim := gets feature_dim in
  let* store := gets linears in
  let l := fresh (dom store) in
  let fresh_weight := new_linear l dim (num_cls + length learned) in
  (* .to(device=self.feature_extractor.conv1.weight.device) *)
  let* fe := gets feature_extractor in
  match fe with
  | None => raise AttributeError
  | Some fe =>
    modify (set_linears (<[l := fresh_weight]> store)) ;;
    modify (set_current_weight_vectors (Some l)) ;;
    let* wvs := gets weight_vectors in
    (if decide (length wvs ≠ 0) then
       let* previous_weight_vector := index_from_end 0 wvs in
       let* src := deref linears previous_weight_vector in
       let* dst := deref linears l in
       let* learned := gets learned_classes in
       let* updated := assign_leading_rows (length learned) src dst in
       let* store := gets linears in
       modify (set_linears (<[l := updated]> store))
     else ret tt) ;;
    let* wvs := gets weight_vectors in
    modify (set_weight_vectors (wvs ++ [l])) ;;
    (* copy.deepcopy(self.feature_extractor) *)
    let* net := deref nets fe in
    let* nstore := gets nets in
    let l' := fresh (dom nstore) in
    modify (set_nets (<[l' := net]> nstore)) ;;
    modify (set_previous_feature_extractor (Some l'))
  end.

(** The [finally] suite of [set_new_task]. *)
Definition set_new_task_exit (task : list string) : M World unit :=
  let* learned := gets learned_classes in
  modify (set_learned_classes (learned ++ task)).

(** [with self.set_new_task(task): body] *)
Definition with_set_new_task {A} (task : list string) (body : M World A)
  : M World A :=
  set_new_task_enter task ;;
  try_finally body (set_new_task_exit task).

(** [with self.use_previous_model(feature_extractor, weight_vectors): body] *)
Definition with_use_previous_model {A}
    (fe wv : option ref) (body : M World A) : M World A :=
  let* current_feature_extractor := gets feature_extractor in
  let* current_weight_vectors := gets current_weight_vectors in
  try_finally
    (let* previous := gets previous_feature_extractor in
     modify (set_feature_extractor
               (match fe with Some x => Some x | None => previous end)) ;;
     let* chosen :=
       match wv with
       | Some x => ret (Some x)
       | None => let* wvs := gets weight_vectors in
                 let* x := index_from_end 1 wvs in
                 ret (Some x)
       end in
     modify (set_current_weight_vectors chosen) ;;
     body)
    (modify (set_feature_extractor current_feature_extractor) ;;
     modify (set_current_weight_vectors current_weight_vectors)).

(** The shape of the state between tasks: the feature extractor is a live
    object and the last weight vector, when there is one, has one row per
    learned class. *)
Definition consistent (w : World) : Prop :=
  (∃ fe net, feature_extractor w = Some fe ∧ nets w !! fe = Some net)
  ∧ match last (weight_vectors w) with
    | None => True
    | Some prev => ∃ W, linears w !! prev = Some W
                        ∧ length W = length (learned_classes w)
    end.

(** A body that only trains: it may change the entries of the weights and
    the parameters of the networks, and nothing else of the model. *)
Definition trains_only {A} (body : M World A) : Prop :=
  ∀ w,
    feature_extractor (body w).2 = feature_extractor w
    ∧ weight_vectors (body w).2 = weight_vectors w
    ∧ learned_classes (body w).2 = learned_classes w
    ∧ (∀ l, is_Some (nets w !! l) → is_Some (nets (body w).2 !! l))
    ∧ (∀ l W, linears w !! l = Some W →
              ∃ W', linears (body w).2 !! l = Some W'
                    ∧ length W' = length W).

(** The training run of [main.py] as far as the model state goes:
    [for task in tasks: with model.set_new_task(task): body task].  An
    exception leaves the loop. *)
Definition learn_tasks (body : list string -> M World unit)
    (tasks : list (list string)) : M World unit :=
  for_each tasks (fun task => with_set_new_task task (body task)).

(** [features / features.norm(p=2, dim=1, keepdim=True)], one row. *)
Definition l2_normalize (row : list F) : list F :=
  map (fun x => fdiv x (norm2 row)) row.

(** [torch.cat(rows, dim=0)] of [1 x D] tensors: an error on the empty
    list and on rows of different widths. *)
Definition torch_cat (rows : list (list F)) : M World (list (list F)) :=
  match rows with
  | [] => raise RuntimeError
  | r :: rest =>
    if forallb (fun r' => length r' =? length r) rest then ret rows
    else raise RuntimeError
  end.

(** [a - b] on two vectors; a vector of width one is broadcast. *)
Definition broadcast_sub (a b : list F) : list F :=
  match a, b with
  | [x], _ => map (fun y => fsub x y) b
  | _, [y] => map (fun x => fsub x y) a
  | _, _ => zip_with fsub a b
  end.

(** What the minimum-finder needs of the comparison: it orders tensor
    elements as "less than" orders numbers that are all comparable (no
    NaN), that is, as a strict weak order. *)
Definition strict_weak_order : Prop :=
  (∀ x, fltb x x = false)
  ∧ (∀ x y z, fltb x y = true → fltb y z = true → fltb x z = true)
  ∧ (∀ x y z, fltb x y = false → fltb y z = false → fltb x z = false).

(** [argmin] along a non-empty row: the position of the first entry that
    no other entry is below. *)
Fixpoint argmin_from (best_i : nat) (best : F) (i : nat) (l : list F) : nat :=
  match l with
  | [] => best_i
  | x :: l' => if fltb x best then argmin_from i x (S i) l'
               else argmin_from best_i best (S i) l'
  end.

Definition argmin (l : list F) : nat :=
  match l with
  | [] => 0
  | x :: l' => argmin_from 0 x 1 l'
  end.

(** The distance [get_preds] compares: the 2-norm of the difference. *)
Definition distance (feature mean : list F) : F :=
  norm2 (broadcast_sub feature mean).

(** [get_preds(image)].  The backbone's last layer has [feature_dim]
    outputs, which is the width the broadcast is checked against. *)
Definition get_preds (image : Batch) : M World (list nat) :=
  let* fe := gets feature_extractor in
  match fe with
  | None => raise TypeError
  | Some fe =>
    let* net := deref nets fe in
    let features := net_forward net image in
    let features := map l2_normalize features in
    let* means := gets exemplar_means in
    let* cls_means := torch_cat (map snd means) in
    let* dim := gets feature_dim in
    let width := length (hd [] cls_means) in
    if decide (dim = width ∨ dim = 1 ∨ width = 1) then
      ret (map (fun f => argmin (map (distance f) cls_means)) features)
    else raise RuntimeError
  end.

(** The inner product [nn.Linear] takes of an input row and a weight row. *)
Variable fdot : list F → list F → F.

(** [nn.Linear.forward] without bias, on a batch of rows: one output per
    weight row; an input that is not [in_features] wide is a shape error. *)
Definition linear (in_features : nat) (weight x : list (list F))
  : M World (list (list F)) :=
  if decide (Forall (fun row => length row = in_features) x)
  then ret (map (fun row => map (fdot row) weight) x)
  else raise RuntimeError.

(** [forward(image)].  Every [nn.Linear] of the model is built with
    [in_features = self.feature_dim]. *)
Definition forward (image : Batch) : M World (list (list F)) :=
  let* fe := gets feature_extractor in
  match fe with
  | None => raise TypeError
  | Some fe =>
    let* net := deref nets fe in
    let features := net_forward net image in
    let* head := gets current_weight_vectors in
    match head with
    | None => raise TypeError
    | Some l =>
      let* weight := deref linears l in
      let* dim := gets feature_dim in
      linear dim weight features
    end
  end.

End Model.

Arguments linear {F Net} fdot in_features weight x.
Arguments forward {F Net Batch} net_forward fdot image.
Arguments mkWorld {F Net}.
Arguments linears {F Net} w.
Arguments nets {F Net} w.
Arguments feature_dim {F Net} w.
Arguments feature_extractor {F Net} w.
Arguments previous_feature_extractor {F Net} w.
Arguments weight_vectors {F Net} w.
Arguments current_weight_vectors {F Net} w.
Arguments exemplar_means {F Net} w.
Arguments current_task {F Net} w.
Arguments learned_classes {F Net} w.
Arguments set_linears {F Net} v w.
Arguments set_nets {F Net} v w.
Arguments set_feature_extractor {F Net} v w.
Arguments set_previous_feature_extractor {F Net} v w.
Arguments set_weight_vectors {F Net} v w.
Arguments set_current_weight_vectors {F Net} v w.
Arguments set_current_task {F Net} v w.
Arguments set_learned_classes {F Net} v w.
Arguments init {F Net} dim backbone.
Arguments deref {F Net V} store l.
Arguments new_linear {F} init_weight l in_features out_features.
Arguments assign_leading_rows {F Net} k src dst.
Arguments index_from_end {F Net A} n xs.
Arguments set_new_task_enter {F Net} init_weight task.
Arguments set_new_task_exit {F Net} task.
Arguments with_set_new_task {F Net} init_weight {A} task body.
Arguments with_use_previous_model {F Net A} fe wv body.
Arguments learn_tasks {F Net} init_weight body tasks.
Arguments consistent {F Net} w.
Arguments trains_only {F Net A} body.
Arguments l2_normalize {F} fdiv norm2 row.
Arguments torch_cat {F Net} rows.
Arguments broadcast_sub {F} fsub a b.
Arguments strict_weak_order {F} fltb.
Arguments argmin_from {F} fltb best_i best i l.
Arguments argmin {F} fltb l.
Arguments distance {F} fsub norm2 feature mean.
Arguments get_preds {F} fsub fdiv norm2 fltb {Net Batch} net_forward image.

End ICaRL.

(* ===================================================================== *)
(** * src/main.py *)
(* ===================================================================== *)

Module Main.

(** A value stored in [hparams_dict]. *)
Inductive hparam : Type :=
| HInt (n : Z)
| HStr (s : string)
| HFloat (q : Q).

Section Driver.

(** The model object with its parameters, and a mini-batch (images with
    their labels).  A [DataLoader] is the list of its batches. *)
Variable Model Batch : Type.

(** One optimisation step of [train_epoch] on a batch (forward pass, loss,
    [zero_grad], [backward], [step]): the loss and the updated model. *)
Variable train_step : Model -> Batch -> Q * Model.

(** [perf_func(get_pred(get_probas(model(image))), label, n)] *)
Variable batch_perf : Model -> Batch -> nat -> Q.

(** [len(model.learned_classes)] *)
Variable num_learned : Model -> nat.

(** The helpers of [utils.helper] the evaluator calls, and the run name. *)
Variable Figure : Type.
Variable plot_matrix : list (list Q) -> Z -> result Figure.
Variable get_backward_transfer get_forgetting_rate
         get_last_setp_accuracy get_average_incremental_accuracy
  : list (list Q) -> result Q.
Variable wname : string.

(** A call on the metrics/logging sink ([logger], [writer]). *)
Inductive event : Type :=
| Info_epoch (num_epoch epoch : nat) (train_loss test_acc : Q)
| Info_test_on_task (i : nat) (test_acc : Q) (task : list string)
| Add_scalar (tag : string) (scalar_value : Q) (global_step : Z)
| Add_figure (tag : string) (figure : Figure) (global_step : Z).

(** The sink is an external collaborator: given the calls made so far
    and the next one, it accepts it or fails with an exception. *)
Variable sink : list (event * option exn) -> event -> option exn.

(** Module-level and closure state: the model object, the evaluator's
    [cl_matrix], [hparams_dict], the learner's [num_task_learned], and the
    calls made on the sink with their outcomes. *)
Record World : Type := mkWorld {
  model : Model;
  cl_matrix : list (list Q);
  hparams_dict : gmap string hparam;
  num_task_learned : nat;
  trace : list (event * option exn)
}.

Definition set_model v (w : World) : World :=
  mkWorld v (cl_matrix w) (hparams_dict w) (num_task_learned w) (trace w).
Definition set_hparams_dict v (w : World) : World :=
  mkWorld (model w) (cl_matrix w) v (num_task_learned w) (trace w).
Definition set_num_task_learned v (w : World) : World :=
  mkWorld (model w) (cl_matrix w) (hparams_dict w) v (trace w).
Definition set_trace v (w : World) : World :=
  mkWorld (model w) (cl_matrix w) (hparams_dict w) (num_task_learned w) v.

(** [np.zeros((n, m))] *)
Definition np_zeros (n m : nat) : list (list Q) :=
  replicate n (replicate m 0%Q).

(** The state right after [get_task_learner()] and
    [get_continual_learning_ability_tester(task_num, _)]. *)
Definition init (task_num : nat) (m : Model) : World :=
  mkWorld m (np_zeros task_num task_num) ∅ 0 [].

(** The exceptions the sink has thrown so far. *)
Definition failures (w : World) : list exn := omap snd (trace w).

(** Any call on the sink. *)
Definition emit (e : event) : M World unit :=
  fun w => match sink (trace w) e with
           | None => (Ok tt, set_trace (trace w ++ [(e, None)]) w)
           | Some x => (Raise x, set_trace (trace w ++ [(e, Some x)]) w)
           end.

(** A call of an external helper, which may raise. *)
Definition call {A} (r : result A) : M World A := fun w => (r, w).

(** A numpy index along an axis of length [n]: negative indices count
    from the end, anything outside [-n, n) is an [IndexError]. *)
Definition np_index (n : nat) (k : Z) : M World nat :=
  if decide (0 <= k < Z.of_nat n)%Z then ret (Z.to_nat k)
  else if decide (- Z.of_nat n <= k < 0)%Z then ret (Z.to_nat (k + Z.of_nat n))
  else raise IndexError.

(** [a[i, j]] on a 2-d array. *)
Definition np_get2 (a : list (list Q)) (i j : Z) : M World Q :=
  let* i' := np_index (length a) i in
  let* j' := np_index (length (hd [] a)) j in
  match a !! i' ≫= (.!! j') with
  | Some v => ret v
  | None => raise IndexError
  end.

(** [a[:k, :k]] for [k >= 0]: bounds are clipped. *)
Definition np_leading_block (k : nat) (a : list (list Q)) : list (list Q) :=
  map (take k) (take k a).

(** [xs[i]] on a list, [i >= 0]. *)
Definition list_get {A} (xs : list A) (i : nat) : M World A :=
  match xs !! i with
  | Some x => ret x
  | None => raise IndexError
  end.

(** [train_epoch(model, train_loader, loss_func, optimizer)] *)
Definition train_epoch (train_loader : list Batch) : M World Q :=
  let* total_loss :=
    fold_each train_loader 0%Q (fun total_loss batch =>
      let* m := gets model in
      let '(loss, m') := train_step m batch in
      modify (set_model m') ;;
      ret (total_loss + loss)%Q) in
  if decide (length train_loader = 0) then raise ZeroDivisionError
  else ret (total_loss / inject_Z (Z.of_nat (length train_loader)))%Q.

(** [test_epoch(model, test_loader, perf_func, num_cls_per_task)] *)
Definition test_epoch (test_loader : list Batch) (num_cls_per_task : nat)
  : M World Q :=
  let* performance :=
    fold_each test_loader [] (fun performance batch =>
      let* m := gets model in
      ret (performance ++ [batch_perf m batch (num_learned m + num_cls_per_task)])) in
  if decide (length performance = 0) then raise ZeroDivisionError
  else ret (foldl Qplus 0%Q performance
            / inject_Z (Z.of_nat (length performance)))%Q.

(** [task_learner(task_id, num_cls_per_task, model, train_loader, test_loader)] *)
Definition task_learner (task_id : Z) (num_cls_per_task : nat)
    (train_loader test_loader : list Batch) : M World Model :=
  let log_times := 5 in
  let num_epoch := 50 in
  for_each (range (Z.of_nat num_epoch)) (fun epoch =>
    let* train_loss := train_epoch train_loader in
    let* test_acc := test_epoch test_loader num_cls_per_task in
    (if decide ((epoch + 1) mod (num_epoch / log_times) = 0)
     then emit (Info_epoch num_epoch (epoch + 1) train_loss test_acc)
     else ret tt) ;;
    emit (Add_scalar "task-learning/train-loss" train_loss
            (Z.of_nat epoch + task_id * Z.of_nat num_epoch)) ;;
    emit (Add_scalar "task-learning/test-top1-acc" test_acc
            (Z.of_nat epoch + task_id * Z.of_nat num_epoch))) ;;
  let* learned := gets num_task_learned in
  (if decide (learned = 0) then
     modify (fun w => set_hparams_dict
       (<["dampening" := HInt 0]>
        (<["weight_decay" := HInt 0]>
         (<["momentum" := HFloat (9 # 10)]>
          (<["lr" := HFloat (1 # 1000)]>
           (<["optim" := HStr "SGD"]>
            (<["num_epoch" := HInt (Z.of_nat num_epoch)]>
             (hparams_dict w))))))) w)
   else ret tt) ;;
  modify (fun w => set_num_task_learned (num_task_learned w + 1) w) ;;
  gets model.

(** [continual_learning_ability_tester(task_id, learned_tasks,
    learned_task_loaders, model)].  The assignment to
    [cl_matrix[i, task_id]] in the loop is commented out in the source, so
    the loop only logs the entry. *)
Definition continual_learning_ability_tester (task_id : Z)
    (learned_tasks : list (list string))
    (learned_task_loaders : list (list Batch))
  : M World (list (list Q) * option (list (string * Q))) :=
  for_each (seq 0 (length learned_task_loaders)) (fun i =>
    let* a := gets cl_matrix in
    let* acc := np_get2 a (Z.of_nat i) task_id in
    let* task := list_get learned_tasks i in
    emit (Info_test_on_task i acc task)) ;;
  let* metrics :=
    if decide (task_id >= 1)%Z then
      let* a := gets cl_matrix in
      let current_cl_matrix := np_leading_block (Z.to_nat (task_id + 1)) a in
      let* bwt := call (get_backward_transfer current_cl_matrix) in
      emit (Add_scalar "continual-learning-metrics/backward-transfer"
              bwt task_id) ;;
      let* forget := call (get_forgetting_rate current_cl_matrix) in
      emit (Add_scalar "continual-learning-metrics/forgetting-rate"
              forget task_id) ;;
      let* last := call (get_last_setp_accuracy current_cl_matrix) in
      emit (Add_scalar "continual-learning-metrics/last-step-accuracy"
              last task_id) ;;
      let* avg := call (get_average_incremental_accuracy current_cl_matrix) in
      emit (Add_scalar "continual-learning-metrics/average-incremental-accuracy"
              avg task_id) ;;
      ret (Some (bwt, forget, last, avg))
    else ret None in
  let* a := gets cl_matrix in
  let* figure := call (plot_matrix a task_id) in
  emit (Add_figure ("cl_matrix/" +:+ wname) figure task_id) ;;
  let* a := gets cl_matrix in
  ret (a, match metrics with
          | Some (bwt, forget, last, avg) =>
            Some [("BWT", bwt); ("Forgetting Rate", forget);
                  ("Last Step Acc", last); ("Average Acc", avg)]
          | None => None
          end).

End Driver.

Arguments mkWorld {Model Figure}.
Arguments model {Model Figure} w.
Arguments cl_matrix {Model Figure} w.
Arguments hparams_dict {Model Figure} w.
Arguments num_task_learned {Model Figure} w.
Arguments trace {Model Figure} w.
Arguments set_model {Model Figure} v w.
Arguments set_hparams_dict {Model Figure} v w.
Arguments set_num_task_learned {Model Figure} v w.
Arguments set_trace {Model Figure} v w.
Arguments Info_epoch {Figure}.
Arguments Info_test_on_task {Figure}.
Arguments Add_scalar {Figure}.
Arguments Add_figure {Figure}.
Arguments init {Model Figure} task_num m.
Arguments failures {Model Figure} w.
Arguments emit {Model Figure} sink e.
Arguments call {Model Figure A} r.
Arguments np_index {Model Figure} n k.
Arguments np_get2 {Model Figure} a i j.
Arguments list_get {Model Figure A} xs i.
Arguments train_epoch {Model Batch} train_step {Figure} train_loader.
Arguments test_epoch {Model Batch} batch_perf num_learned {Figure}
  test_loader num_cls_per_task.
Arguments task_learner {Model Batch} train_step batch_perf num_learned
  {Figure} sink task_id num_cls_per_task train_loader test_loader.
Arguments continual_learning_ability_tester {Model Batch Figure}
  plot_matrix get_backward_transfer get_forgetting_rate
  get_last_setp_accuracy get_average_incremental_accuracy wname sink
  task_id learned_tasks learned_task_loaders.

End Main.

(* ===================================================================== *)
(** * Concrete collaborators used in the examples *)
(* ===================================================================== *)

Module Demo.

(** ** For [iCaRL]: integer tensors *)

Definition init_weight (l r c : nat) : Z := Z.of_nat (100 * l + 10 * r + c).

Definition norm2 (v : list Z) : Z :=
  Z.sqrt (foldr (fun x acc => x * x + acc)%Z 0%Z v).

(** A backbone that returns the batch it is given as the embeddings. *)
Definition net_forward (_ : unit) (image : list (list Z)) : list (list Z) :=
  image.

(** A body that trains nothing and fails on the task [["cat"]]. *)
Definition body (task : list string) : M (ICaRL.World Z unit) unit :=
  if decide (task = ["cat"]) then raise (External 1) else ret tt.

(** The model after [with model.set_new_task(["apple", "baby"]): pass]. *)
Definition trained_once : ICaRL.World Z unit :=
  (ICaRL.with_set_new_task init_weight ["apple"; "baby"] (ret tt)
     (ICaRL.init 3 tt)).2.

(** A model holding two prototypes of width two. *)
Definition with_prototypes : ICaRL.World Z unit :=
  ICaRL.mkWorld ∅ {[ 0 := tt ]} 2 (Some 0) None [] None
    [("apple", [1; 0]%Z); ("baby", [0; 1]%Z)] None ["apple"; "baby"].

(** ** For [main.py] *)

Definition train_step (m : unit) (_ : unit) : Q * unit := (0%Q, m).
Definition batch_perf (_ : unit) (_ : unit) (_ : nat) : Q := 1%Q.
Definition num_learned (_ : unit) : nat := 0.
Definition plot_matrix (_ : list (list Q)) (_ : Z) : result unit := Ok tt.

(** A sink that takes every call, and one that is down. *)
Definition accepting_sink
    (_ : list (Main.event unit * option exn)) (_ : Main.event unit)
  : option exn := None.
Definition failing_sink
    (_ : list (Main.event unit * option exn)) (_ : Main.event unit)
  : option exn := Some (External 7).

Definition entry (M : list (list Q)) (i j : nat) : Q :=
  default 0%Q (M !! i ≫= (.!! j)).

Definition mean (xs : list Q) : Q :=
  (foldr Qplus 0 xs / inject_Z (Z.of_nat (length xs)))%Q.

Definition Qmax (x y : Q) : Q := if Qle_bool x y then y else x.

(** Modelled from the spec: [utils.helper.get_backward_transfer] is not
    among the sources.  Section 4.5: the average over evaluation tasks
    [i < n-1] of [M[i, n-1] - M[i, i]]. *)
Definition get_backward_transfer (M : list (list Q)) : result Q :=
  let n := length M in
  Ok (mean (map (fun i => entry M i (n - 1) - entry M i i)%Q (seq 0 (n - 1)))).

(** Modelled from the spec: [utils.helper.get_forgetting_rate] is not
    among the sources.  Section 4.5: the average over [i < n-1] of the
    maximum over [j] in [[i, n-1)] of [M[i, j]], minus [M[i, n-1]]. *)
Definition get_forgetting_rate (M : list (list Q)) : result Q :=
  let n := length M in
  Ok (mean (map (fun i =>
              foldr Qmax (entry M i i)
                (map (entry M i) (seq i (n - 1 - i)))
              - entry M i (n - 1))%Q
            (seq 0 (n - 1)))).

(** Modelled from the spec: [utils.helper.get_last_setp_accuracy] is not
    among the sources.  Section 4.5: the mean of the final column. *)
Definition get_last_setp_accuracy (M : list (list Q)) : result Q :=
  let n := length M in
  Ok (mean (map (fun i => entry M i (n - 1)) (seq 0 n))).

(** Modelled from the spec: [utils.helper.get_average_incremental_accuracy]
    is not among the sources.  Section 4.5: the mean over each step [j] of
    the mean of column [j] restricted to rows [0..j]. *)
Definition get_average_incremental_accuracy (M : list (list Q)) : result Q :=
  let n := length M in
  Ok (mean (map (fun j => mean (map (fun i => entry M i j) (seq 0 (j + 1))))
                (seq 0 n))).

Definition task_learner :=
  Main.task_learner train_step batch_perf num_learned (Figure:=unit).

Definition continual_learning_ability_tester :=
  Main.continual_learning_ability_tester (Model:=unit) (Batch:=unit)
    plot_matrix get_backward_transfer get_forgetting_rate
    get_last_setp_accuracy get_average_incremental_accuracy "run".

End Demo.

(* ===================================================================== *)
(** * utils/data/cifar100.py: the data of a task *)
(* ===================================================================== *)

Module Cifar100Data.

(** What the functions of this part raise. *)
Inductive error : Type :=
| KeyError (key : string)
| ValueError
| IndexError.

(** [enumerate(xs)] *)
Definition enumerate {A} (xs : list A) : list (nat * A) :=
  zip (seq 0 (length xs)) xs.

(** [{cls_name: cls_id for cls_id, cls_name in enumerate(names)}]: the
    entries are stored from left to right, a repeated name keeps the id
    stored last. *)
Definition cls_id_mapper (names : list string) : gmap string nat :=
  foldl (fun m '(cls_id, cls_name) => <[cls_name := cls_id]> m) ∅
        (enumerate names).

Section Data.

(** An image of the data set. *)
Variable Image : Type.

(** [a[mask]] with a boolean mask over the first axis: the entries where
    the mask holds, an [IndexError] when the mask is not as long as the
    axis. *)
Definition mask_select {A} (mask : list bool) (a : list A) : error + list A :=
  if decide (length mask = length a)
  then inr (map snd (filter (fun p => p.1 = true) (zip mask a)))
  else inl IndexError.

(** [np.concatenate(arrays)]: a [ValueError] on the empty list. *)
Definition np_concatenate {A} (arrays : list (list A)) : error + list A :=
  match arrays with
  | [] => inl ValueError
  | _ => inr (concat arrays)
  end.

(** The loop of [task_data_getter]: the two lists it appends to. *)
Fixpoint collect (images : list Image) (labels : list Z)
    (mapper : gmap string nat) (cls_names : list string)
    (task_images : list (list Image)) (task_labels : list (list Z))
  : error + (list (list Image) * list (list Z)) :=
  match cls_names with
  | [] => inr (task_images, task_labels)
  | cls_name :: rest =>
    match mapper !! cls_name with
    | None => inl (KeyError cls_name)
    | Some cls_id =>
      let cls_mask := map (fun l => bool_decide (l = Z.of_nat cls_id)) labels in
      match mask_select cls_mask images with
      | inl e => inl e
      | inr selected_images =>
        match mask_select cls_mask labels with
        | inl e => inl e
        | inr selected_labels =>
          collect images labels mapper rest
            (task_images ++ [selected_images])
            (task_labels ++ [selected_labels])
        end
      end
    end
  end.

(** [get_task_data_getter(split)(cls_names)], given the images and labels
    that [get_data(split)] returned and the class names of the data set. *)
Definition task_data_getter (images : list Image) (labels : list Z)
    (all_names : list string) (cls_names : list string)
  : error + (list Image * list Z) :=
  match collect images labels (cls_id_mapper all_names) cls_names [] [] with
  | inl e => inl e
  | inr (task_images, task_labels) =>
    match np_concatenate task_images with
    | inl e => inl e
    | inr images' =>
      match np_concatenate task_labels with
      | inl e => inl e
      | inr labels' => inr (images', labels')
      end
    end
  end.

(** ** [Cifar100Dataset] *)

(** A tensor, [torchvision.transforms.ToTensor()] and the transforms the
    data set was built with. *)
Variable Tensor : Type.
Variable to_tensor : Image → Tensor.

Record Cifar100Dataset : Type := mkDataset {
  ds_images : list Image;
  ds_labels : list Z;
  ds_transforms : Tensor → Tensor
}.

(** [__len__] *)
Definition dataset_len (d : Cifar100Dataset) : nat := length (ds_labels d).

(** [a[index]] along the first axis, for a Python integer: negative
    indices count from the end. *)
Definition np_item {A} (a : list A) (index : Z) : error + A :=
  let n := Z.of_nat (length a) in
  let i := if decide (index < 0)%Z then (index + n)%Z else index in
  if decide (0 ≤ i < n)%Z then
    match a !! Z.to_nat i with
    | Some x => inr x
    | None => inl IndexError
    end
  else inl IndexError.

(** [__getitem__] *)
Definition dataset_getitem (d : Cifar100Dataset) (index : Z)
  : error + (Tensor * Z) :=
  match np_item (ds_images d) index with
  | inl e => inl e
  | inr raw =>
    let image := to_tensor raw in
    match np_item (ds_labels d) index with
    | inl e => inl e
    | inr label => inr (ds_transforms d image, label)
    end
  end.

End Data.

Arguments mask_select {A} mask a.
Arguments np_concatenate {A} arrays.
Arguments collect {Image} images labels mapper cls_names task_images task_labels.
Arguments task_data_getter {Image} images labels all_names cls_names.
Arguments mkDataset {Image Tensor}.
Arguments ds_images {Image Tensor} _.
Arguments ds_labels {Image Tensor} _.
Arguments ds_transforms {Image Tensor} _.
Arguments dataset_len {Image Tensor} d.
Arguments np_item {A} a index.
Arguments dataset_getitem {Image Tensor} to_tensor d index.

End Cifar100Data.

(* ===================================================================== *)
(** * Facts about the runtime fragment *)
(* ===================================================================== *)

Section PyFacts.

Context {A : Type}.

Lemma swap_length (i j : nat) (x : list A) : length (swap i j x) = length x.
Proof.
  unfold swap. destruct (x !! i), (x !! j); try done.
  by rewrite !length_insert.
Qed.

Lemma swap_Permutation (i j : nat) (x : list A) : swap i j x ≡ₚ x.
Proof.
  unfold swap.
  destruct (x !! i) as [xi|] eqn:Hi, (x !! j) as [xj|] eqn:Hj; try done.
  by apply Permutation_insert_swap.
Qed.

(** A swap leaves every position other than the two it names alone. *)
Lemma swap_lookup_other (i j k : nat) (x : list A) :
  k ≠ i → k ≠ j → swap i j x !! k = x !! k.
Proof.
  intros Hki Hkj. unfold swap.
  destruct (x !! i), (x !! j); try done.
  rewrite list_lookup_insert_ne by done.
  by rewrite list_lookup_insert_ne.
Qed.

Lemma shuffle_loop_Permutation (i : nat) :
  ∀ (draws : list nat) (x : list A), (shuffle_loop i draws x).1 ≡ₚ x.
Proof.
  induction i as [|i IH]; intros draws x; simpl; [done|].
  rewrite IH. apply swap_Permutation.
Qed.

Lemma shuffle_Permutation (draws : list nat) (x : list A) :
  (shuffle draws x).1 ≡ₚ x.
Proof. apply shuffle_loop_Permutation. Qed.

(** The loop at [i] only ever writes positions [0..i]. *)
Lemma shuffle_loop_lookup_above (i : nat) :
  ∀ (draws : list nat) (x : list A) (k : nat),
    i < k → (shuffle_loop i draws x).1 !! k = x !! k.
Proof.
  induction i as [|i IH]; intros draws x k Hk; simpl; [done|].
  rewrite IH by lia.
  apply swap_lookup_other; [lia|].
  pose proof (Nat.mod_upper_bound (hd 0 draws) (S i + 1)). lia.
Qed.

(** With a generator that always draws [0], the first round moves the
    head of the list to its last position, where it stays. *)
Lemma shuffle_zero_draws_last (x : list A) (a : A) :
  2 ≤ length x → x !! 0 = Some a →
  (shuffle [] x).1 !! (length x - 1) = Some a.
Proof.
  intros Hlen Ha. unfold shuffle.
  destruct (length x - 1) as [|i] eqn:Hi; [lia|]. simpl.
  rewrite shuffle_loop_lookup_above by lia.
  replace (i + 1 - (i + 1)) with 0 by lia.
  unfold swap.
  destruct (x !! S i) as [b|] eqn:Hb.
  - rewrite Ha. destruct (decide (0 = S i)) as [|_]; [lia|].
    rewrite list_lookup_insert_ne by lia.
    apply list_lookup_insert_eq. apply lookup_lt_Some in Hb. done.
  - apply lookup_ge_None in Hb. lia.
Qed.

(** Consecutive slices of width [c] add up to a prefix. *)
Lemma concat_slices (c n : nat) (l : list A) :
  concat (map (fun i => slice (i * c) ((i + 1) * c) l) (seq 0 n))
  = take (n * c) l.
Proof.
  induction n as [|n IH]; [done|].
  rewrite seq_S, map_app, concat_app, IH. simpl.
  rewrite app_nil_r. unfold slice.
  replace ((n + 1) * c - n * c) with c by lia.
  rewrite take_take_drop. f_equal. lia.
Qed.

Lemma slice_length (a b : nat) (l : list A) :
  length (slice a b l) = (b - a) `min` (length l - a).
Proof. unfold slice. by rewrite length_take, length_drop. Qed.

End PyFacts.

Section HoareFacts.

Context {S : Type}.

Lemma hoare_bind {A B} (P : S → Prop) (R : A → S → Prop)
    (Q : result B → S → Prop) (m : M S A) (k : A → M S B) :
  hoare P m (fun r s => match r with
                        | Ok a => R a s
                        | Raise e => Q (Raise e) s
                        end) →
  (∀ a, hoare (R a) (k a) Q) →
  hoare P (bind m k) Q.
Proof.
  intros Hm Hk s HP. specialize (Hm s HP). unfold bind.
  destruct (m s) as [[a|e] s']; cbn [fst snd] in *; [|done].
  by apply Hk.
Qed.

Variable I : S → Prop.
Variable E : exn → S → Prop.

Lemma post_ret {A} (a : A) : hoare I (ret a) (post I E).
Proof. by intros s Hs. Qed.

Lemma post_gets {A} (f : S → A) : hoare I (gets f) (post I E).
Proof. by intros s Hs. Qed.

Lemma post_raise {A} (e : exn) :
  (∀ s, I s → E e s) → hoare I (raise e : M S A) (post I E).
Proof. intros He s Hs. by apply He. Qed.

Lemma post_modify (f : S → S) :
  (∀ s, I s → I (f s)) → hoare I (modify f) (post I E).
Proof. intros Hf s Hs. by apply Hf. Qed.

Lemma post_bind {A B} (m : M S A) (k : A → M S B) :
  hoare I m (post I E) → (∀ a, hoare I (k a) (post I E)) →
  hoare I (bind m k) (post I E).
Proof.
  intros Hm Hk. apply (hoare_bind I (fun _ => I)); [|done].
  intros s Hs. specialize (Hm s Hs). by destruct (m s).1.
Qed.

Lemma post_for_each {A} (xs : list A) (body : A → M S unit) :
  (∀ x, hoare I (body x) (post I E)) →
  hoare I (for_each xs body) (post I E).
Proof.
  intros Hbody. induction xs as [|x xs IH]; cbn [for_each].
  - apply post_ret.
  - apply post_bind; [apply Hbody|]. intros _. apply IH.
Qed.

Lemma post_fold_each {A B} (xs : list A) (body : B → A → M S B) :
  (∀ acc x, hoare I (body acc x) (post I E)) →
  ∀ acc, hoare I (fold_each xs acc body) (post I E).
Proof.
  intros Hbody. induction xs as [|x xs IH]; intros acc; cbn [fold_each].
  - apply post_ret.
  - apply post_bind; [apply Hbody|]. intros acc'. apply IH.
Qed.

End HoareFacts.

(* ===================================================================== *)
(** * The task sequence generator *)
(* ===================================================================== *)

Section Cifar100Facts.

Import Cifar100.

(** What the randomized branch computes, for a non-zero task count. *)
Lemma get_cifar100_tasks_random (task_num : Z) (w : World) :
  task_num ≠ 0%Z →
  get_cifar100_tasks task_num false w =
    (let '(x, d) := shuffle (rng w) (cls_names w) in
     (Ok (map (fun i => slice (i * 10) ((i + 1) * 10) x)
              (range (Z.of_nat (length x) / task_num))),
      {| cls_names := x; rng := d |})).
Proof.
  intros HT. unfold get_cifar100_tasks, random_shuffle, bind, modify, gets,
    floordiv, ret.
  destruct (shuffle (rng w) (cls_names w)) as [x d]. simpl.
  destruct (Z.eqb_spec task_num 0); [done|]. done.
Qed.

(** In the randomized branch the list object is rewritten before anything
    can fail. *)
Lemma get_cifar100_tasks_random_state (task_num : Z) (w : World) :
  cls_names (get_cifar100_tasks task_num false w).2
  = (shuffle (rng w) (cls_names w)).1.
Proof.
  unfold get_cifar100_tasks, random_shuffle, bind, modify, gets,
    floordiv, ret, raise.
  destruct (shuffle (rng w) (cls_names w)) as [x d]. simpl.
  by destruct (task_num =? 0)%Z.
Qed.

(** On the one configuration the constants were written for, a hundred
    distinct classes in ten tasks, the slices do partition the classes. *)
Lemma get_cifar100_tasks_default_partition (w : World) :
  length (cls_names w) = 100 → NoDup (cls_names w) →
  ∃ groups, (get_cifar100_tasks 10 false w).1 = Ok groups
    ∧ length groups = 10
    ∧ Forall (fun g => length g = 10) groups
    ∧ concat groups ≡ₚ cls_names w
    ∧ NoDup (concat groups).
Proof.
  intros Hlen Hnd. rewrite get_cifar100_tasks_random by done.
  pose proof (shuffle_Permutation (rng w) (cls_names w)) as Hperm.
  destruct (shuffle (rng w) (cls_names w)) as [x d]. simpl in Hperm.
  assert (Hx : length x = 100) by (by rewrite Hperm).
  eexists. split; [reflexivity|]. rewrite Hx.
  change (range (Z.of_nat 100 / 10)) with (seq 0 10).
  split; [by rewrite length_map, length_seq|].
  split.
  - apply Forall_forall. intros g [i [-> Hi]]%list_elem_of_fmap.
    apply elem_of_seq in Hi. rewrite slice_length. lia.
  - rewrite (concat_slices 10 10 x), take_ge by lia.
    split; [done|]. by rewrite Hperm.
Qed.

(** C3. The randomized partition is claimed to give [T] disjoint groups of
    size [C/T] whenever [T] divides [C].  On four classes and two tasks
    (4 % 2 = 0) the code returns, whatever the generator draws, one group
    holding all four classes followed by an empty group: the slice width
    is the constant 10 and the number of slices is [C // T], so the groups
    do not have size [C/T = 2]. *)
Theorem get_cifar100_tasks_four_classes_two_tasks (draws : list nat) :
  let names := ["apple"; "baby"; "bear"; "bed"] in
  ∃ g, (get_cifar100_tasks 2 false {| cls_names := names; rng := draws |}).1
         = Ok [g; []]
       ∧ g ≡ₚ names
       ∧ length g ≠ Z.to_nat (4 / 2).
Proof.
  intros names. rewrite get_cifar100_tasks_random by done.
  cbn [cls_names rng].
  pose proof (shuffle_Permutation draws names) as Hperm.
  destruct (shuffle draws names) as [x d]. cbn [fst] in *.
  assert (Hx : length x = 4) by (by rewrite Hperm).
  rewrite Hx. exists x.
  change (range (Z.of_nat 4 / 2)) with [0; 1].
  cbn [map fst]. unfold slice.
  rewrite take_ge by (rewrite length_drop; lia).
  rewrite (drop_ge x (1 * 10)) by lia.
  repeat split; [done|]. rewrite Hx. done.
Qed.




(** C10. With [fixed_tasks=False] the caller's list object is shuffled in
    place: after the call (also when the call raises on a zero task count)
    it holds the shuffle of what it held before, a reordering of the same
    names, and it is not in general left as it was: whenever the first and
    the last name differ there is a generator for which the list the caller
    sees afterwards is not the list it passed. *)
Theorem get_cifar100_tasks_shuffles_argument (task_num : Z) (w : World) :
  let w' := (get_cifar100_tasks task_num false w).2 in
  cls_names w' = (shuffle (rng w) (cls_names w)).1
  ∧ cls_names w' ≡ₚ cls_names w
  ∧ (∀ a b, cls_names w !! 0 = Some a →
            cls_names w !! (length (cls_names w) - 1) = Some b →
            a ≠ b →
            ∃ draws,
              cls_names (get_cifar100_tasks task_num false
                           {| cls_names := cls_names w; rng := draws |}).2
              ≠ cls_names w).
Proof.
  cbv zeta. split; [apply get_cifar100_tasks_random_state|].
  split.
  - rewrite get_cifar100_tasks_random_state. apply shuffle_Permutation.
  - intros a b Ha Hb Hab. exists [].
    rewrite get_cifar100_tasks_random_state. cbn [cls_names rng].
    intros Heq.
    assert (2 ≤ length (cls_names w)) as Hlen.
    { destruct (cls_names w) as [|x [|y l]]; simpl in *; [done| |lia].
      congruence. }
    pose proof (shuffle_zero_draws_last (cls_names w) a Hlen Ha) as Hlast.
    rewrite Heq in Hlast. congruence.
Qed.

Lemma get_cifar100_tasks_shuffles_argument_witness :
  ["apple"; "baby"; "bear"] !! 0 = Some "apple"
  ∧ ["apple"; "baby"; "bear"] !! 2 = Some "bear"
  ∧ "apple" ≠ "bear"
  ∧ ∃ draws,
      cls_names (get_cifar100_tasks 1 false
                   {| cls_names := ["apple"; "baby"; "bear"];
                      rng := draws |}).2
      ≠ ["apple"; "baby"; "bear"].
Proof.
  split; [reflexivity|]. split; [reflexivity|]. split; [done|].
  destruct (get_cifar100_tasks_shuffles_argument 1
              {| cls_names := ["apple"; "baby"; "bear"]; rng := [1; 0] |})
    as (_ & _ & H).
  apply (H "apple" "bear"); [reflexivity|reflexivity|done].
Defined.

End Cifar100Facts.

(* ===================================================================== *)
(** * The incremental model state *)
(* ===================================================================== *)

Section ICaRLFacts.

Import ICaRL.

Context {F Net : Type}.
Variable init_weight : ref -> nat -> nat -> F.

Local Abbreviation World := (ICaRL.World F Net).
Local Abbreviation set_new_task_enter := (ICaRL.set_new_task_enter init_weight).
Local Abbreviation with_set_new_task := (ICaRL.with_set_new_task init_weight).
Local Abbreviation learn_tasks := (ICaRL.learn_tasks init_weight).

(** Reduce the attribute reads and writes of a state term. *)
Ltac fields :=
  cbn [fst snd feature_extractor set_current_task learned_classes
       feature_dim linears weight_vectors set_linears
       set_current_weight_vectors nets set_weight_vectors set_nets
       set_previous_feature_extractor previous_feature_extractor
       set_feature_extractor set_learned_classes
       current_weight_vectors exemplar_means current_task].

(** ** [use_previous_model] *)

(** C2. Whatever the wrapped computation does (return, raise, or never
    start because [weight_vectors[-2]] does not exist), after the scope
    the active feature extractor and the active weight vector are the
    objects that were active when the scope began. *)
Theorem use_previous_model_restores {A : Type}
    (fe wv : option ref) (body : M World A) (w : World) :
  feature_extractor (with_use_previous_model fe wv body w).2
    = feature_extractor w
  ∧ current_weight_vectors (with_use_previous_model fe wv body w).2
    = current_weight_vectors w.
Proof.
  unfold with_use_previous_model, try_finally, bind, gets, modify.
  cbn [fst snd].
  match goal with
  | |- context [match ?inner with (r, s') => _ end] =>
      destruct inner as [r s']
  end.
  cbn. done.
Qed.

(** The outcome of the scope is the outcome of what ran inside it. *)
Lemma use_previous_model_outcome {A : Type}
    (fe wv : option ref) (body : M World A) (w : World) (x : ref) :
  wv = Some x →
  (with_use_previous_model fe wv body w).1
  = (body (set_current_weight_vectors (Some x)
             (set_feature_extractor
                (match fe with
                 | Some f => Some f
                 | None => previous_feature_extractor w
                 end) w))).1.
Proof.
  intros ->.
  unfold with_use_previous_model, try_finally, bind, gets, modify, ret.
  cbn [fst snd].
  match goal with
  | |- context [body ?s] => destruct (body s) as [r s']
  end.
  done.
Qed.

(** ** [set_new_task] *)

(** Entering the scope does not touch [learned_classes]. *)
Lemma set_new_task_enter_learned_classes (task : list string) (w : World) :
  learned_classes (set_new_task_enter task w).2 = learned_classes w.
Proof.
  unfold ICaRL.set_new_task_enter, deref, index_from_end,
    assign_leading_rows, bind, gets, modify, ret, raise.
  cbn [fst snd].
  repeat (case_match; simplify_eq/=; try done).
Qed.

(** Leaving a scope that was entered, by return or by exception: the
    task's classes are appended to what [learned_classes] held when the
    body ended. *)
Lemma with_set_new_task_learned_classes {A : Type}
    (task : list string) (body : M World A) (w w1 : World) :
  set_new_task_enter task w = (Ok tt, w1) →
  learned_classes (with_set_new_task task body w).2
  = learned_classes (body w1).2 ++ task
  ∧ (with_set_new_task task body w).1 = (body w1).1.
Proof.
  intros Henter.
  unfold ICaRL.with_set_new_task, bind. rewrite Henter.
  unfold try_finally, set_new_task_exit, bind, gets, modify.
  destruct (body w1) as [r w2]. done.
Qed.

(** A scope that could not be entered appends nothing. *)
Lemma with_set_new_task_not_entered {A : Type}
    (task : list string) (body : M World A) (w w1 : World) (e : exn) :
  set_new_task_enter task w = (Raise e, w1) →
  learned_classes (with_set_new_task task body w).2 = learned_classes w
  ∧ (with_set_new_task task body w).1 = Raise e.
Proof.
  intros Henter.
  pose proof (set_new_task_enter_learned_classes task w) as Hl.
  unfold ICaRL.with_set_new_task, bind. rewrite Henter in *. done.
Qed.

(** The run appends the tasks it got through, in order, each once. *)
Lemma learn_tasks_learned_classes
    (body : list string → M World unit) (tasks : list (list string)) :
  (∀ task w, learned_classes (body task w).2 = learned_classes w) →
  ∀ w, ∃ k, k ≤ length tasks
    ∧ learned_classes (learn_tasks body tasks w).2
      = learned_classes w ++ concat (take k tasks)
    ∧ ((learn_tasks body tasks w).1 = Ok tt → k = length tasks).
Proof.
  intros Hframe. induction tasks as [|task tasks IH]; intros w.
  - exists 0. cbn. by rewrite app_nil_r.
  - unfold ICaRL.learn_tasks. cbn [for_each]. unfold bind.
    fold (learn_tasks body tasks).
    pose proof (set_new_task_enter_learned_classes task w) as Hw1.
    destruct (set_new_task_enter task w) as [[[]|e] w1] eqn:Henter;
      cbn [snd] in Hw1.
    + destruct (with_set_new_task_learned_classes task (body task) w w1 Henter)
        as [Hl Hr].
      rewrite Hframe, Hw1 in Hl.
      destruct (with_set_new_task task (body task) w) as [[[]|e] w2];
        cbn [fst snd] in *.
      * destruct (IH w2) as (k & Hk & Hk' & Hok).
        exists (S k). cbn [take concat length].
        rewrite Hk', Hl, <-app_assoc.
        split; [lia|]. split; [done|]. intros H. f_equal. by apply Hok.
      * exists 1. cbn [take concat length]. rewrite take_0. cbn [concat].
        rewrite app_nil_r. split; [lia|]. done.
    + destruct (with_set_new_task_not_entered task (body task) w w1 e Henter)
        as [Hl Hr].
      destruct (with_set_new_task task (body task) w) as [r w2].
      cbn [fst snd] in *. subst r. exists 0. cbn [take concat].
      rewrite app_nil_r. split; [lia|]. done.
Qed.

(** The state a successful entry leaves when a previous weight vector
    exists and has one row per learned class. *)
Lemma set_new_task_enter_warm (task : list string) (w : World)
    (fe prev : ref) (net : Net) (Wprev : list (list F)) :
  feature_extractor w = Some fe →
  nets w !! fe = Some net →
  last (weight_vectors w) = Some prev →
  linears w !! prev = Some Wprev →
  length Wprev = length (learned_classes w) →
  let l := fresh (dom (linears w)) in
  let Wnew :=
    Wprev ++ drop (length (learned_classes w))
               (new_linear init_weight l (feature_dim w)
                  (length task + length (learned_classes w))) in
  set_new_task_enter task w
  = (Ok tt,
     mkWorld (<[l := Wnew]> (linears w))
       (<[fresh (dom (nets w)) := net]> (nets w))
       (feature_dim w) (Some fe) (Some (fresh (dom (nets w))))
       (weight_vectors w ++ [l]) (Some l) (exemplar_means w) (Some task)
       (learned_classes w)).
Proof.
  intros Hfe Hnet Hlast Hprev Hrows l Wnew.
  assert (Hne : prev ≠ l).
  { intros ->. apply (is_fresh (dom (linears w))).
    apply elem_of_dom. by eexists. }
  assert (Hlen : length (weight_vectors w) ≠ 0).
  { destruct (weight_vectors w); [done|]. cbn. lia. }
  assert (Hidx : reverse (weight_vectors w) !! 0 = Some prev).
  { by rewrite <-head_lookup, head_reverse. }
  unfold ICaRL.set_new_task_enter, deref, index_from_end,
    assign_leading_rows, bind, gets, modify, ret, raise.
  fields.
  rewrite Hfe.
  fields.
  destruct (decide (length (weight_vectors w) ≠ 0)) as [_|]; [|done].
  rewrite Hidx. fold l. fields.
  rewrite lookup_insert_ne by done. rewrite Hprev. fields.
  rewrite lookup_insert_eq.
  fields.
  assert (Hk : length (learned_classes w)
                 `min` length (new_linear init_weight l (feature_dim w)
                                 (length task + length (learned_classes w)))
               = length (learned_classes w)).
  { unfold new_linear. rewrite length_map, length_seq. lia. }
  rewrite Hk.
  destruct (decide (length Wprev = length (learned_classes w))); [|done].
  fields.
  rewrite Hnet.
  unfold set_previous_feature_extractor, set_nets, set_weight_vectors,
    set_linears, set_current_weight_vectors, set_current_task.
  fields. by rewrite Hfe, insert_insert_eq.
Qed.

(** The state a successful entry leaves before anything was learned. *)
Lemma set_new_task_enter_first (task : list string) (w : World)
    (fe : ref) (net : Net) :
  feature_extractor w = Some fe →
  nets w !! fe = Some net →
  weight_vectors w = [] →
  let l := fresh (dom (linears w)) in
  set_new_task_enter task w
  = (Ok tt,
     mkWorld
       (<[l := new_linear init_weight l (feature_dim w)
                 (length task + length (learned_classes w))]> (linears w))
       (<[fresh (dom (nets w)) := net]> (nets w))
       (feature_dim w) (Some fe) (Some (fresh (dom (nets w))))
       [l] (Some l) (exemplar_means w) (Some task)
       (learned_classes w)).
Proof.
  intros Hfe Hnet Hwvs l.
  unfold ICaRL.set_new_task_enter, deref, bind, gets, modify, ret, raise.
  fields. rewrite Hfe. fields. rewrite Hwvs. cbn [length].
  destruct (decide (0 ≠ 0)) as [|_]; [done|]. fields.
  rewrite Hnet.
  unfold set_previous_feature_extractor, set_nets, set_weight_vectors,
    set_linears, set_current_weight_vectors, set_current_task.
  fields. by rewrite Hfe, Hwvs.
Qed.

(** A fresh model is consistent, and a task scope around a body that only
    trains keeps the model so; after it there is a last weight vector, with
    one row per learned class. *)
Lemma init_consistent (dim : nat) (backbone : Net) :
  consistent (init (F:=F) dim backbone).
Proof. split; [|done]. by exists 0, backbone. Qed.

Lemma with_set_new_task_consistent {A : Type}
    (task : list string) (body : M World A) (w : World) :
  consistent w → trains_only body →
  consistent (with_set_new_task task body w).2
  ∧ ∃ prev W,
      last (weight_vectors (with_set_new_task task body w).2) = Some prev
      ∧ linears (with_set_new_task task body w).2 !! prev = Some W
      ∧ length W
        = length (learned_classes (with_set_new_task task body w).2).
Proof.
  intros [(fe & net & Hfe & Hnet) Hlast] Hbody.
  assert (Hfresh : fe ≠ fresh (dom (nets w))).
  { intros Heq. apply (is_fresh (dom (nets w))).
    rewrite <-Heq. apply elem_of_dom. by eexists. }
  assert (∃ w1 l Wnew,
            set_new_task_enter task w = (Ok tt, w1)
            ∧ feature_extractor w1 = Some fe
            ∧ is_Some (nets w1 !! fe)
            ∧ last (weight_vectors w1) = Some l
            ∧ linears w1 !! l = Some Wnew
            ∧ length Wnew = length task + length (learned_classes w)
            ∧ learned_classes w1 = learned_classes w)
    as (w1 & l & Wnew & Henter & Hfe1 & Hnet1 & Hl1 & HW1 & Hlen1 & Hlc1).
  { destruct (last (weight_vectors w)) as [prev|] eqn:Hprev.
    - destruct Hlast as (Wprev & HWprev & Hrows).
      pose proof (set_new_task_enter_warm task w fe prev net Wprev
                    Hfe Hnet Hprev HWprev Hrows) as Henter.
      cbv zeta in Henter. eexists _, _, _. split; [exact Henter|]. fields.
      split; [done|]. split; [by rewrite lookup_insert_ne|].
      split; [by rewrite last_snoc|]. split; [by rewrite lookup_insert_eq|].
      split; [|done]. rewrite length_app, length_drop. unfold new_linear.
      rewrite length_map, length_seq. lia.
    - apply last_None in Hprev.
      pose proof (set_new_task_enter_first task w fe net Hfe Hnet Hprev)
        as Henter.
      cbv zeta in Henter. eexists _, _, _. split; [exact Henter|]. fields.
      split; [done|]. split; [by rewrite lookup_insert_ne|].
      split; [done|]. split; [by rewrite lookup_insert_eq|].
      split; [|done]. unfold new_linear. by rewrite length_map, length_seq. }
  unfold ICaRL.with_set_new_task, bind. rewrite Henter.
  unfold try_finally, set_new_task_exit, bind, gets, modify.
  destruct (Hbody w1) as (Hb_fe & Hb_wv & Hb_lc & Hb_nets & Hb_lin).
  destruct (Hb_lin l Wnew HW1) as (W' & HW' & HlenW').
  destruct (body w1) as [r w2]. fields. cbn [fst snd] in *.
  assert (Hlen : length W' = length (learned_classes w2 ++ task)).
  { rewrite length_app, Hb_lc, Hlc1. lia. }
  unfold consistent, set_learned_classes. fields.
  rewrite Hb_wv, Hl1.
  split.
  - split.
    + destruct (Hb_nets fe Hnet1) as [net' Hnet'].
      exists fe, net'. split; [congruence|done].
    + by exists W'.
  - by exists l, W'.
Qed.

(** C5. Every execution of the [set_new_task] scope, whether its body
    returns or raises, appends the task's classes to [learned_classes]
    exactly once; and a run over tasks that share no class, started from a
    fresh model, never holds a class twice: its [learned_classes] is the
    concatenation of the tasks it got through.  The body is any computation
    that leaves [learned_classes] to the scope. *)
Theorem set_new_task_appends_once
    (body : list string → M World unit) (tasks : list (list string))
    (dim : nat) (backbone : Net) :
  (∀ task w, learned_classes (body task w).2 = learned_classes w) →
  NoDup (concat tasks) →
  (∀ task w w1,
     set_new_task_enter task w = (Ok tt, w1) →
     learned_classes (with_set_new_task task (body task) w).2
     = learned_classes w ++ task)
  ∧ (∃ k, k ≤ length tasks
       ∧ learned_classes (learn_tasks body tasks (init dim backbone)).2
         = concat (take k tasks)
       ∧ ((learn_tasks body tasks (init dim backbone)).1 = Ok tt →
          k = length tasks))
  ∧ NoDup (learned_classes (learn_tasks body tasks (init dim backbone)).2).
Proof.
  intros Hframe Hnd.
  assert (Hrun := learn_tasks_learned_classes body tasks Hframe
                    (init dim backbone)).
  destruct Hrun as (k & Hk & Hl & Hok). cbn [init learned_classes] in Hl.
  rewrite app_nil_l in Hl.
  split; [|split].
  - intros task w w1 Henter.
    destruct (with_set_new_task_learned_classes task (body task) w w1 Henter)
      as [-> _].
    rewrite Hframe.
    pose proof (set_new_task_enter_learned_classes task w) as Hw1.
    rewrite Henter in Hw1. cbn [snd] in Hw1. by rewrite Hw1.
  - by exists k.
  - rewrite Hl. rewrite <-(take_drop k tasks), concat_app in Hnd.
    by apply NoDup_app in Hnd as [? _].
Qed.

(** C6. When [set_new_task] is called on a model that has learned a task
    (it is in the state task scopes leave, and has a last weight vector),
    the weight vector it creates has [len(task) + len(learned_classes)] rows
    and its leading [len(learned_classes)] rows are the rows of the previous
    weight vector, which is left as it was. *)
Theorem set_new_task_warm_start (task : list string) (w : World)
    (prev : ref) (Wprev : list (list F)) :
  consistent w →
  last (weight_vectors w) = Some prev →
  linears w !! prev = Some Wprev →
  ∃ w1 l Wnew,
    set_new_task_enter task w = (Ok tt, w1)
    ∧ current_weight_vectors w1 = Some l
    ∧ last (weight_vectors w1) = Some l
    ∧ linears w1 !! l = Some Wnew
    ∧ length Wnew = length task + length (learned_classes w)
    ∧ length Wprev = length (learned_classes w)
    ∧ take (length (learned_classes w)) Wnew = Wprev
    ∧ (∀ i, i < length (learned_classes w) → Wnew !! i = Wprev !! i)
    ∧ linears w1 !! prev = Some Wprev.
Proof.
  intros [(fe & net & Hfe & Hnet) Hcons] Hlast Hprev.
  rewrite Hlast in Hcons. destruct Hcons as (W & HW & Hrows).
  assert (W = Wprev) as -> by congruence.
  pose proof (set_new_task_enter_warm task w fe prev net Wprev
                Hfe Hnet Hlast Hprev Hrows) as Henter.
  cbv zeta in Henter.
  eexists _, _, _. split; [exact Henter|].
  fields.
  assert (Hne : prev ≠ fresh (dom (linears w))).
  { intros Heq. apply (is_fresh (dom (linears w))).
    rewrite <-Heq. apply elem_of_dom. by eexists. }
  split; [done|].
  split; [by rewrite last_snoc|].
  split; [by rewrite lookup_insert_eq|].
  split.
  { rewrite length_app, length_drop. unfold new_linear.
    rewrite length_map, length_seq. lia. }
  split; [done|].
  split; [by rewrite take_app_length' by done|].
  split.
  { intros i Hi. rewrite lookup_app_l by lia. done. }
  by rewrite lookup_insert_ne.
Qed.

End ICaRLFacts.

(* ===================================================================== *)
(** * Nearest-prototype inference *)
(* ===================================================================== *)

Section GetPredsFacts.

Import ICaRL.

Context {F Net Batch : Type}.
Variables (fsub fdiv : F → F → F) (norm2 : list F → F) (fltb : F → F → bool).
Variable net_forward : Net → Batch → list (list F).

Local Abbreviation World := (ICaRL.World F Net).
Local Abbreviation argmin_from := (ICaRL.argmin_from fltb).
Local Abbreviation argmin := (ICaRL.argmin fltb).
Local Abbreviation l2_normalize := (ICaRL.l2_normalize fdiv norm2).
Local Abbreviation get_preds :=
  (ICaRL.get_preds fsub fdiv norm2 fltb net_forward).

Local Abbreviation strict_weak_order := (ICaRL.strict_weak_order fltb).

Lemma argmin_from_spec (l : list F) :
  strict_weak_order →
  ∀ (best_i : nat) (best : F) (i : nat),
    (argmin_from best_i best i l = best_i
     ∧ ∀ j x, l !! j = Some x → fltb x best = false)
    ∨ (∃ j x, argmin_from best_i best i l = i + j
         ∧ l !! j = Some x
         ∧ fltb x best = true
         ∧ (∀ j' y, l !! j' = Some y → fltb y x = false)
         ∧ (∀ j' y, j' < j → l !! j' = Some y → fltb x y = true)).
Proof.
  intros (Hirr & Htrans & Hneg).
  assert (Hasym : ∀ x y, fltb x y = true → fltb y x = false).
  { intros x y Hxy. destruct (fltb y x) eqn:Hyx; [|done].
    by rewrite <-(Hirr x), (Htrans x y x). }
  induction l as [|x l IH]; intros best_i best i; cbn [ICaRL.argmin_from].
  - left. split; [done|]. intros j x Hj. by rewrite lookup_nil in Hj.
  - destruct (fltb x best) eqn:Hx.
    + right.
      destruct (IH i x (S i)) as [[Hr Hall]|(j & z & Hr & Hj & Hz & Hmin & Hfirst)].
      * exists 0, x. rewrite Hr, Nat.add_0_r.
        split; [done|]. split; [done|]. split; [done|].
        split; [|intros; lia].
        intros [|j'] y Hy; simplify_eq/=; eauto.
      * exists (S j), z. rewrite Hr.
        split; [lia|]. split; [done|]. split; [by eapply Htrans|].
        split.
        -- intros [|j'] y Hy; simplify_eq/=; eauto.
        -- intros [|j'] y Hlt Hy; simplify_eq/=; [done|].
           eapply Hfirst; [|done]. lia.
    + destruct (IH best_i best (S i))
        as [[Hr Hall]|(j & z & Hr & Hj & Hz & Hmin & Hfirst)].
      * left. split; [done|].
        intros [|j'] y Hy; simplify_eq/=; eauto.
      * right. exists (S j), z. rewrite Hr.
        split; [lia|]. split; [done|]. split; [done|].
        split.
        -- intros [|j'] y Hy; simplify_eq/=; [|eauto].
           destruct (fltb y z) eqn:Hyz; [|done].
           by rewrite <-Hx, (Htrans y z best).
        -- intros [|j'] y Hlt Hy; simplify_eq/=.
           ++ destruct (fltb z y) eqn:Hzy; [done|].
              by rewrite <-Hz, (Hneg z y best).
           ++ eapply Hfirst; [|done]. lia.
Qed.

(** [argmin] of a non-empty row is the position of its first least
    entry. *)
Lemma argmin_first_least (d : list F) :
  strict_weak_order → d ≠ [] →
  ∃ di, d !! argmin d = Some di
    ∧ (∀ j dj, d !! j = Some dj → fltb dj di = false)
    ∧ (∀ j dj, j < argmin d → d !! j = Some dj → fltb di dj = true).
Proof.
  intros Hswo Hne. destruct d as [|x l]; [done|]. cbn [ICaRL.argmin].
  pose proof Hswo as (Hirr & Htrans & Hneg).
  destruct (argmin_from_spec l Hswo 0 x 1)
    as [[Hr Hall]|(j & z & Hr & Hj & Hz & Hmin & Hfirst)]; rewrite Hr.
  - exists x. split; [done|]. split; [|intros; lia].
    intros [|j'] y Hy; simplify_eq/=; eauto.
  - exists z. split; [done|]. split.
    + intros [|j'] y Hy; simplify_eq/=; [|eauto].
      destruct (fltb y z) eqn:Hyz; [|done].
      by rewrite <-(Hirr y), (Htrans y z y).
    + intros [|j'] y Hlt Hy; simplify_eq/=; [done|].
      eapply Hfirst; [|done]. lia.
Qed.

(** On vectors of one width the broadcast difference is the elementwise
    difference. *)
Lemma broadcast_sub_same_width (a b : list F) :
  length a = length b → broadcast_sub fsub a b = zip_with fsub a b.
Proof.
  intros Hlen. unfold broadcast_sub.
  destruct a as [|x [|x' a]], b as [|y [|y' b]]; simplify_eq/=; done.
Qed.

Lemma torch_cat_same_width (rows : list (list F)) (n : nat) (w : World) :
  rows ≠ [] → Forall (fun r => length r = n) rows →
  torch_cat rows w = (Ok rows, w).
Proof.
  intros Hne Hall. destruct rows as [|r rest]; [done|].
  unfold torch_cat.
  apply Forall_cons in Hall as [Hr Hrest].
  replace (forallb (fun r' => length r' =? length r) rest) with true; [done|].
  symmetry. apply forallb_forall. intros r' Hin.
  apply Nat.eqb_eq. rewrite Hr.
  rewrite Forall_forall in Hrest. apply Hrest. by apply list_elem_of_In.
Qed.


End GetPredsFacts.

(* ===================================================================== *)
(** * The task learner and the continual-learning evaluator *)
(* ===================================================================== *)

Section MainFacts.

Import Main.

Context {Model Batch Figure : Type}.
Variable train_step : Model → Batch → Q * Model.
Variable batch_perf : Model → Batch → nat → Q.
Variable num_learned : Model → nat.
Variable plot_matrix : list (list Q) → Z → result Figure.
Variables get_backward_transfer get_forgetting_rate
          get_last_setp_accuracy get_average_incremental_accuracy
  : list (list Q) → result Q.
Variable wname : string.
Variable sink : list (event Figure * option exn) → event Figure → option exn.

Local Abbreviation World := (Main.World Model Figure).
Local Abbreviation emit := (Main.emit (Model:=Model) sink).
Local Abbreviation train_epoch :=
  (Main.train_epoch train_step (Figure:=Figure)).
Local Abbreviation test_epoch :=
  (Main.test_epoch batch_perf num_learned (Figure:=Figure)).
Local Abbreviation task_learner :=
  (Main.task_learner train_step batch_perf num_learned sink).
Local Abbreviation continual_learning_ability_tester :=
  (Main.continual_learning_ability_tester (Model:=Model) (Batch:=Batch)
     plot_matrix get_backward_transfer get_forgetting_rate
     get_last_setp_accuracy get_average_incremental_accuracy wname sink).

(** ** Invariants carried through both functions *)

Section Invariant.

(** [I] holds between statements; [E] holds of an exception and the
    state it leaves.  [I] only depends on what the sink and the
    evaluator's matrix are, and an exception raised where [I] holds is
    accounted for by [E]. *)
Variable I : World → Prop.
Variable E : exn → World → Prop.
Hypothesis I_E : ∀ e w, I w → E e w.
Hypothesis I_model : ∀ v w, I w → I (set_model v w).
Hypothesis I_hparams : ∀ v w, I w → I (set_hparams_dict v w).
Hypothesis I_num : ∀ v w, I w → I (set_num_task_learned v w).
Hypothesis I_emit : ∀ e, hoare I (emit e) (post I E).

Lemma post_pure {A} (m : M World A) :
  (∀ w, (m w).2 = w) → hoare I m (post I E).
Proof using I_E.
  intros Hm w Hw. rewrite Hm. unfold post. destruct (m w).1; auto.
Qed.

Lemma np_get2_pure (a : list (list Q)) (i j : Z) (w : World) :
  (np_get2 a i j w).2 = w.
Proof.
  unfold np_get2, np_index, bind, ret, raise.
  repeat (case_match; simplify_eq/=; try done).
Qed.

Lemma list_get_pure {A} (xs : list A) (i : nat) (w : World) :
  (list_get xs i w).2 = w.
Proof. unfold list_get, ret, raise. by case_match. Qed.

Lemma train_epoch_post (train_loader : list Batch) :
  hoare I (train_epoch train_loader) (post I E).
Proof using I_E I_model.
  unfold Main.train_epoch. apply post_bind.
  - apply post_fold_each. intros acc x.
    apply post_bind; [apply post_gets|]. intros m.
    destruct (train_step m x) as [loss m'].
    apply post_bind; [by apply post_modify; auto|]. intros _.
    apply post_ret.
  - intros total. case_decide; [by apply post_raise; auto|apply post_ret].
Qed.

Lemma test_epoch_post (test_loader : list Batch) (n : nat) :
  hoare I (test_epoch test_loader n) (post I E).
Proof using I_E.
  unfold Main.test_epoch. apply post_bind.
  - apply post_fold_each. intros acc x.
    apply post_bind; [apply post_gets|]. intros m. apply post_ret.
  - intros perf. case_decide; [by apply post_raise; auto|apply post_ret].
Qed.

Lemma task_learner_post (task_id : Z) (n : nat)
    (train_loader test_loader : list Batch) :
  hoare I (task_learner task_id n train_loader test_loader) (post I E).
Proof using I_E I_model I_hparams I_num I_emit.
  unfold Main.task_learner. apply post_bind.
  - apply post_for_each. intros epoch.
    apply post_bind; [apply train_epoch_post|]. intros train_loss.
    apply post_bind; [apply test_epoch_post|]. intros test_acc.
    apply post_bind; [case_decide; [apply I_emit|apply post_ret]|].
    intros _. apply post_bind; [apply I_emit|]. intros _. apply I_emit.
  - intros _. apply post_bind; [apply post_gets|]. intros learned.
    apply post_bind.
    { case_decide; [|apply post_ret]. apply post_modify; auto. }
    intros _. apply post_bind; [apply post_modify; auto|].
    intros _. apply post_gets.
Qed.

Lemma continual_learning_ability_tester_post (task_id : Z)
    (learned_tasks : list (list string))
    (learned_task_loaders : list (list Batch)) :
  hoare I (continual_learning_ability_tester task_id learned_tasks
             learned_task_loaders) (post I E).
Proof using I_E I_emit.
  unfold Main.continual_learning_ability_tester.
  apply post_bind.
  { apply post_for_each. intros i.
    apply post_bind; [apply post_gets|]. intros a.
    apply post_bind; [apply post_pure, np_get2_pure|]. intros acc.
    apply post_bind; [apply post_pure, list_get_pure|]. intros task.
    apply I_emit. }
  intros _. apply post_bind.
  { case_decide; [|apply post_ret].
    apply post_bind; [apply post_gets|]. intros a.
    repeat (apply post_bind; [by apply post_pure|]; intros ?;
            apply post_bind; [apply I_emit|]; intros _).
    apply post_ret. }
  intros metrics.
  apply post_bind; [apply post_gets|]. intros a.
  apply post_bind; [by apply post_pure|]. intros figure.
  apply post_bind; [apply I_emit|]. intros _.
  apply post_bind; [apply post_gets|]. intros a'. apply post_ret.
Qed.

End Invariant.

(** ** The accuracy matrix *)

(** No path through the evaluator writes [cl_matrix]. *)
Lemma continual_learning_ability_tester_cl_matrix (task_id : Z)
    (learned_tasks : list (list string))
    (learned_task_loaders : list (list Batch)) (w : World) :
  cl_matrix (continual_learning_ability_tester task_id learned_tasks
               learned_task_loaders w).2 = cl_matrix w.
Proof.
  pose proof (continual_learning_ability_tester_post
                (fun s => cl_matrix s = cl_matrix w)
                (fun _ s => cl_matrix s = cl_matrix w)) as H.
  specialize (H ltac:(done)).
  assert (Hemit : ∀ e, hoare (fun s => cl_matrix s = cl_matrix w) (emit e)
                    (post (fun s => cl_matrix s = cl_matrix w)
                          (fun _ s => cl_matrix s = cl_matrix w))).
  { intros e s Hs. unfold Main.emit. by destruct (sink (trace s) e). }
  specialize (H Hemit task_id learned_tasks learned_task_loaders w eq_refl).
  unfold post in H. by destruct (_ .1).
Qed.

(** Nor does the task learner. *)
Lemma task_learner_cl_matrix (task_id : Z) (n : nat)
    (train_loader test_loader : list Batch) (w : World) :
  cl_matrix (task_learner task_id n train_loader test_loader w).2
  = cl_matrix w.
Proof.
  pose proof (task_learner_post
                (fun s => cl_matrix s = cl_matrix w)
                (fun _ s => cl_matrix s = cl_matrix w)) as H.
  do 4 specialize (H ltac:(done)).
  assert (Hemit : ∀ e, hoare (fun s => cl_matrix s = cl_matrix w) (emit e)
                    (post (fun s => cl_matrix s = cl_matrix w)
                          (fun _ s => cl_matrix s = cl_matrix w))).
  { intros e s Hs. unfold Main.emit. by destruct (sink (trace s) e). }
  specialize (H Hemit task_id n train_loader test_loader w eq_refl).
  unfold post in H. by destruct (_ .1).
Qed.

(** ** Failures of the sink *)

Lemma emit_propagates (e : event Figure) :
  hoare (fun s : World => failures s = []) (emit e)
    (post (fun s => failures s = [])
          (fun x s => failures s = [] ∨ failures s = [x])).
Proof.
  intros s Hs. unfold Main.emit, failures in *.
  destruct (sink (trace s) e) as [x|]; cbn [fst snd post trace set_trace];
    rewrite omap_app, Hs; cbn; auto.
Qed.

(** C8, amended. Neither function handles an exception of the sink: when
    a call on the sink ([logger], [writer]) fails while the task learner or
    the evaluator runs, that exception is the outcome of the function. *)
Theorem sink_failure_propagates (task_id : Z) (n : nat)
    (train_loader test_loader : list Batch)
    (learned_tasks : list (list string))
    (learned_task_loaders : list (list Batch)) (w : World) (x : exn) :
  failures w = [] →
  (x ∈ failures (task_learner task_id n train_loader test_loader w).2 →
   (task_learner task_id n train_loader test_loader w).1 = Raise x)
  ∧ (x ∈ failures (continual_learning_ability_tester task_id learned_tasks
                     learned_task_loaders w).2 →
     (continual_learning_ability_tester task_id learned_tasks
        learned_task_loaders w).1 = Raise x).
Proof.
  intros Hw.
  assert (HL := task_learner_post (fun s => failures s = [])
                  (fun x s => failures s = [] ∨ failures s = [x])
                  ltac:(intros; by left) ltac:(done) ltac:(done) ltac:(done)
                  emit_propagates task_id n train_loader test_loader w Hw).
  assert (HT := continual_learning_ability_tester_post
                  (fun s => failures s = [])
                  (fun x s => failures s = [] ∨ failures s = [x])
                  ltac:(intros; by left) emit_propagates
                  task_id learned_tasks learned_task_loaders w Hw).
  unfold post in HL, HT. split; intros Hx.
  - destruct (task_learner task_id n train_loader test_loader w)
      as [[m|y] s']; cbn [fst snd] in *.
    + rewrite HL in Hx. by apply elem_of_nil in Hx.
    + destruct HL as [HL|HL]; rewrite HL in Hx.
      * by apply elem_of_nil in Hx.
      * by apply list_elem_of_singleton in Hx as ->.
  - destruct (continual_learning_ability_tester task_id learned_tasks
                learned_task_loaders w) as [[m|y] s']; cbn [fst snd] in *.
    + rewrite HT in Hx. by apply elem_of_nil in Hx.
    + destruct HT as [HT|HT]; rewrite HT in Hx.
      * by apply elem_of_nil in Hx.
      * by apply list_elem_of_singleton in Hx as ->.
Qed.

(** ** What the evaluator returns *)

Lemma np_get2_in_range (a : list (list Q)) (n i : nat) (k : Z) (w : World) :
  length a = n → Forall (fun row => length row = n) a →
  i < n → (0 ≤ k < Z.of_nat n)%Z →
  ∃ v, np_get2 a (Z.of_nat i) k w = (Ok v, w).
Proof.
  intros Hlen Hrows Hi Hk.
  destruct (lookup_lt_is_Some_2 a i ltac:(lia)) as [row Hrow].
  assert (Hrow_len : length row = n).
  { rewrite Forall_lookup in Hrows. by eapply Hrows. }
  assert (Hhd : length (hd [] a) = n).
  { destruct a as [|r a]; [cbn in *; lia|]. by apply Forall_cons in Hrows as [? _]. }
  destruct (lookup_lt_is_Some_2 row (Z.to_nat k) ltac:(lia)) as [v Hv].
  exists v. unfold np_get2, np_index, bind, ret, raise.
  rewrite Hlen, Hhd.
  destruct (decide (0 ≤ Z.of_nat i < Z.of_nat n)%Z); [|lia].
  destruct (decide (0 ≤ k < Z.of_nat n)%Z); [|lia].
  rewrite Nat2Z.id, Hrow. cbn. by rewrite Hv.
Qed.

(** With a sink that takes every call, the logging loop runs through. *)
Lemma test_loop_returns (task_id : Z) (learned_tasks : list (list string))
    (n : nat) (xs : list nat) :
  (∀ tr e, sink tr e = None) →
  (0 ≤ task_id < Z.of_nat n)%Z →
  Forall (fun i => i < n ∧ i < length learned_tasks) xs →
  ∀ w : World,
    length (cl_matrix w) = n →
    Forall (fun row => length row = n) (cl_matrix w) →
    ∃ w', for_each xs (fun i =>
            let* a := gets cl_matrix in
            let* acc := np_get2 a (Z.of_nat i) task_id in
            let* task := list_get learned_tasks i in
            emit (Info_test_on_task i acc task)) w = (Ok tt, w')
          ∧ cl_matrix w' = cl_matrix w.
Proof.
  intros Hsink Hk. induction xs as [|i xs IH]; intros Hxs w Hlen Hrows.
  - by exists w.
  - apply Forall_cons in Hxs as [[Hi Hi'] Hxs].
    destruct (np_get2_in_range (cl_matrix w) n i task_id w) as [v Hv];
      [done..|].
    destruct (lookup_lt_is_Some_2 learned_tasks i Hi') as [task Htask].
    cbn [for_each]. unfold bind at 1 2 3 4, gets at 1, list_get.
    rewrite Hv, Htask. unfold ret at 1, Main.emit at 1. rewrite Hsink.
    destruct (IH Hxs (set_trace
                        (trace w ++ [(Info_test_on_task i v task, None)]) w))
      as (w' & Hrun & Hw'); [done..|].
    by exists w'.
Qed.


End MainFacts.

(* ===================================================================== *)
(** * The claims at concrete inputs *)
(* ===================================================================== *)

(** The metric helpers modelled from the specification reproduce its worked
    example on [[0.9, 0.7], [0, 0.8]]. *)
Example metrics_worked_example :
  let M := [[9 # 10; 7 # 10]; [0; 8 # 10]]%Q in
  ∃ bwt forget last avg,
    Demo.get_backward_transfer M = Ok bwt ∧ (bwt == - (2 # 10))%Q
    ∧ Demo.get_forgetting_rate M = Ok forget ∧ (forget == 2 # 10)%Q
    ∧ Demo.get_last_setp_accuracy M = Ok last ∧ (last == 75 # 100)%Q
    ∧ Demo.get_average_incremental_accuracy M = Ok avg
    ∧ (avg == 825 # 1000)%Q.
Proof. cbv zeta. eexists _, _, _, _. repeat split; reflexivity. Qed.

(** C1. The evaluator is claimed to write the measured accuracy of every
    task [i <= k] into [M[i, k]].  After task 0 of a two-task run, on a
    loader on which [test_epoch] measures accuracy 1, the evaluator returns,
    and leaves, a matrix whose entry [M[0, 0]] is still 0: the loop over the
    loaders only logs the entry. *)
Theorem continual_learning_ability_tester_skips_measurement :
  (Main.test_epoch Demo.batch_perf Demo.num_learned (Figure:=unit) [tt] 1
     (Main.init 2 tt)).1 = Ok 1%Q
  ∧ ∃ metrics w',
      Demo.continual_learning_ability_tester Demo.accepting_sink 0
        [["apple"]] [[tt]] (Main.init 2 tt)
      = (Ok (Main.np_zeros 2 2, metrics), w')
      ∧ Main.cl_matrix w' !! 0 ≫= (.!! 0) = Some 0%Q.
Proof.
  split; [reflexivity|].
  eexists _, _. split; [vm_compute; reflexivity|reflexivity].
Qed.

(** C8, the claim refuted: with a sink that is down, the first call on it
    ends the task learner, and the evaluator, with the sink's exception. *)
Lemma sink_failure_aborts :
  (Demo.task_learner Demo.failing_sink 0 1 [tt] [tt] (Main.init 2 tt)).1
  = Raise (External 7)
  ∧ (Demo.continual_learning_ability_tester Demo.failing_sink 0
       [["apple"]] [[tt]] (Main.init 2 tt)).1
    = Raise (External 7).
Proof. split; vm_compute; reflexivity. Qed.

Lemma sink_failure_propagates_witness :
  Main.failures (Main.init (Figure:=unit) 2 tt) = []
  ∧ (External 7
       ∈ Main.failures
           (Demo.task_learner Demo.failing_sink 0 1 [tt] [tt]
              (Main.init 2 tt)).2 →
     (Demo.task_learner Demo.failing_sink 0 1 [tt] [tt] (Main.init 2 tt)).1
     = Raise (External 7))
  ∧ (External 7
       ∈ Main.failures
           (Demo.continual_learning_ability_tester Demo.failing_sink 0
              [["apple"]] [[tt]] (Main.init 2 tt)).2 →
     (Demo.continual_learning_ability_tester Demo.failing_sink 0
        [["apple"]] [[tt]] (Main.init 2 tt)).1
     = Raise (External 7)).
Proof.
  split; [reflexivity|].
  apply (sink_failure_propagates Demo.train_step Demo.batch_perf
           Demo.num_learned Demo.plot_matrix Demo.get_backward_transfer
           Demo.get_forgetting_rate Demo.get_last_setp_accuracy
           Demo.get_average_incremental_accuracy "run" Demo.failing_sink
           0 1 [tt] [tt] [["apple"]] [[tt]] (Main.init 2 tt) (External 7)).
  reflexivity.
Defined.


Lemma set_new_task_appends_once_witness :
  (∀ task w w1,
     ICaRL.set_new_task_enter Demo.init_weight task w = (Ok tt, w1) →
     ICaRL.learned_classes
       (ICaRL.with_set_new_task Demo.init_weight task (Demo.body task) w).2
     = ICaRL.learned_classes w ++ task)
  ∧ (∃ k, k ≤ 3
       ∧ ICaRL.learned_classes
           (ICaRL.learn_tasks Demo.init_weight Demo.body
              [["apple"; "baby"]; ["cat"]; ["dog"]] (ICaRL.init 3 tt)).2
         = concat (take k [["apple"; "baby"]; ["cat"]; ["dog"]])
       ∧ ((ICaRL.learn_tasks Demo.init_weight Demo.body
             [["apple"; "baby"]; ["cat"]; ["dog"]] (ICaRL.init 3 tt)).1
          = Ok tt → k = 3))
  ∧ NoDup (ICaRL.learned_classes
             (ICaRL.learn_tasks Demo.init_weight Demo.body
                [["apple"; "baby"]; ["cat"]; ["dog"]] (ICaRL.init 3 tt)).2).
Proof.
  apply (set_new_task_appends_once Demo.init_weight Demo.body
           [["apple"; "baby"]; ["cat"]; ["dog"]] 3 tt).
  - intros task w. unfold Demo.body. destruct (decide (task = ["cat"])); reflexivity.
  - apply (bool_decide_unpack _). vm_compute. exact I.
Defined.

(** In the run above the body fails on the second task; its class was
    appended all the same, and the third task was never begun. *)
Example learn_tasks_stops_at_failure :
  ICaRL.learn_tasks Demo.init_weight Demo.body
    [["apple"; "baby"]; ["cat"]; ["dog"]] (ICaRL.init 3 tt)
  = (Raise (External 1),
     (ICaRL.learn_tasks Demo.init_weight Demo.body
        [["apple"; "baby"]; ["cat"]; ["dog"]] (ICaRL.init 3 tt)).2)
  ∧ ICaRL.learned_classes
      (ICaRL.learn_tasks Demo.init_weight Demo.body
         [["apple"; "baby"]; ["cat"]; ["dog"]] (ICaRL.init 3 tt)).2
    = ["apple"; "baby"; "cat"].
Proof. split; vm_compute; reflexivity. Qed.

Lemma set_new_task_warm_start_witness :
  ∃ w1 l Wnew,
    ICaRL.set_new_task_enter Demo.init_weight ["cat"] Demo.trained_once
    = (Ok tt, w1)
    ∧ ICaRL.current_weight_vectors w1 = Some l
    ∧ last (ICaRL.weight_vectors w1) = Some l
    ∧ ICaRL.linears w1 !! l = Some Wnew
    ∧ length Wnew
      = length ["cat"] + length (ICaRL.learned_classes Demo.trained_once)
    ∧ length [[0; 1; 2]; [10; 11; 12]]%Z
      = length (ICaRL.learned_classes Demo.trained_once)
    ∧ take (length (ICaRL.learned_classes Demo.trained_once)) Wnew
      = [[0; 1; 2]; [10; 11; 12]]%Z
    ∧ (∀ i, i < length (ICaRL.learned_classes Demo.trained_once) →
            Wnew !! i = [[0; 1; 2]; [10; 11; 12]]%Z !! i)
    ∧ ICaRL.linears w1 !! 0 = Some [[0; 1; 2]; [10; 11; 12]]%Z.
Proof.
  apply (set_new_task_warm_start Demo.init_weight ["cat"] Demo.trained_once
           0 [[0; 1; 2]; [10; 11; 12]]%Z).
  - apply with_set_new_task_consistent; [apply init_consistent|].
    intros w. repeat split; try reflexivity; intros; eauto.
  - vm_compute; reflexivity.
  - vm_compute; reflexivity.
Defined.


(* ===================================================================== *)
(** * Further properties of the task sequence generator *)
(* ===================================================================== *)

Section Cifar100Edges.

Import Cifar100.

(** X1. Under [fixed_tasks] the call neither reads nor writes anything: it
    returns the literal table for every class list and every task count
    (zero and counts that do not divide included), leaves the caller's list
    and the random generator as they were, and the table is a partition of
    a hundred distinct names into ten groups of ten. *)
Theorem get_cifar100_tasks_fixed (task_num : Z) (w : World) :
  get_cifar100_tasks task_num true w = (Ok fixed_tasks_table, w)
  ∧ length fixed_tasks_table = 10
  ∧ Forall (fun g => length g = 10) fixed_tasks_table
  ∧ NoDup (concat fixed_tasks_table).
Proof.
  split; [reflexivity|]. split; [reflexivity|]. split.
  - repeat constructor.
  - apply (bool_decide_unpack _). vm_compute. exact I.
Qed.

(** X2. A task count of zero in the randomized mode raises
    [ZeroDivisionError], after the caller's list has been shuffled and the
    generator advanced. *)
Theorem get_cifar100_tasks_zero (w : World) :
  get_cifar100_tasks 0 false w
  = (Raise ZeroDivisionError,
     {| cls_names := (shuffle (rng w) (cls_names w)).1;
        rng := (shuffle (rng w) (cls_names w)).2 |}).
Proof.
  unfold get_cifar100_tasks, random_shuffle, bind, modify, gets, floordiv,
    raise.
  by destruct (shuffle (rng w) (cls_names w)).
Qed.

(** X3. A negative task count, or one above the number of classes, is not
    rejected: the randomized mode returns the empty list of tasks. *)
Theorem get_cifar100_tasks_no_tasks (task_num : Z) (w : World) :
  (task_num < 0 ∨ Z.of_nat (length (cls_names w)) < task_num)%Z →
  (get_cifar100_tasks task_num false w).1 = Ok [].
Proof.
  intros HT. rewrite get_cifar100_tasks_random by lia.
  pose proof (shuffle_Permutation (rng w) (cls_names w)) as Hperm.
  destruct (shuffle (rng w) (cls_names w)) as [x d]. cbn [fst] in *.
  rewrite Hperm. unfold range.
  replace (Z.to_nat (Z.of_nat (length (cls_names w)) / task_num)) with 0;
    [done|].
  destruct HT as [HT|HT].
  - assert (Z.of_nat (length (cls_names w)) / task_num ≤ 0)%Z; [|lia].
    pose proof (Z.div_mod (Z.of_nat (length (cls_names w))) task_num
                  ltac:(lia)).
    pose proof (Z.mod_neg_bound (Z.of_nat (length (cls_names w))) task_num
                  ltac:(lia)).
    nia.
  - rewrite Z.div_small by lia. done.
Qed.

Lemma get_cifar100_tasks_no_tasks_witness :
  (get_cifar100_tasks (-3) false
     {| cls_names := ["apple"; "baby"]; rng := [] |}).1 = Ok [].
Proof.
  apply (get_cifar100_tasks_no_tasks (-3)
           {| cls_names := ["apple"; "baby"]; rng := [] |}).
  left. lia.
Defined.

(** X4. In the randomized mode, for any non-zero task count and a class
    list without repetition, the groups are consecutive pieces of the
    shuffled list: together they are its first [10 * (C // T)] names, so no
    class is in two groups, no group has more than ten classes, and
    [min(C, 10 * (C // T))] classes are handed out, the rest dropped. *)
Theorem get_cifar100_tasks_groups (task_num : Z) (w : World) :
  task_num ≠ 0%Z → NoDup (cls_names w) →
  ∃ groups,
    (get_cifar100_tasks task_num false w).1 = Ok groups
    ∧ concat groups
      = take (10 * Z.to_nat (Z.of_nat (length (cls_names w)) / task_num))
             (cls_names (get_cifar100_tasks task_num false w).2)
    ∧ NoDup (concat groups)
    ∧ Forall (fun g => length g ≤ 10) groups
    ∧ (∀ name, name ∈ concat groups → name ∈ cls_names w)
    ∧ length (concat groups)
      = (10 * Z.to_nat (Z.of_nat (length (cls_names w)) / task_num))
          `min` length (cls_names w).
Proof.
  intros HT Hnd. rewrite get_cifar100_tasks_random_state.
  rewrite get_cifar100_tasks_random by done.
  pose proof (shuffle_Permutation (rng w) (cls_names w)) as Hperm.
  destruct (shuffle (rng w) (cls_names w)) as [x d]. cbn [fst] in *.
  assert (Hlen : length x = length (cls_names w)) by (by rewrite Hperm).
  eexists. split; [reflexivity|].
  rewrite Hlen. unfold range.
  set (n := Z.to_nat (Z.of_nat (length (cls_names w)) / task_num)).
  rewrite (concat_slices 10 n x). replace (n * 10) with (10 * n) by lia.
  split; [done|]. split.
  { rewrite <-Hperm in Hnd. rewrite <-(take_drop (10 * n) x) in Hnd.
    by apply NoDup_app in Hnd as [? _]. }
  split.
  { apply Forall_forall. intros g [i [-> _]]%list_elem_of_fmap.
    rewrite slice_length. lia. }
  split.
  { intros name Hin. rewrite <-Hperm. by eapply subseteq_take. }
  by rewrite length_take, Hlen.
Qed.

Lemma get_cifar100_tasks_groups_witness :
  ∃ groups,
    (get_cifar100_tasks 1 false
       {| cls_names := ["apple"; "baby"; "bear"]; rng := [4; 1] |}).1
    = Ok groups
    ∧ concat groups = ["apple"; "bear"; "baby"]
    ∧ NoDup (concat groups).
Proof.
  destruct (get_cifar100_tasks_groups 1
              {| cls_names := ["apple"; "baby"; "bear"]; rng := [4; 1] |})
    as (groups & Hrun & Hcat & Hnd & _).
  - lia.
  - apply (bool_decide_unpack _). vm_compute. exact I.
  - exists groups. split; [exact Hrun|]. split; [exact Hcat|exact Hnd].
Defined.

End Cifar100Edges.

(* ===================================================================== *)
(** * The data of a task *)
(* ===================================================================== *)

Section Cifar100DataFacts.

Import Cifar100Data.

Lemma enumerate_snoc {A} (xs : list A) (x : A) :
  enumerate (xs ++ [x]) = enumerate xs ++ [(length xs, x)].
Proof.
  unfold enumerate. rewrite length_app, seq_app. cbn [length seq].
  rewrite Nat.add_0_l.
  by rewrite (zip_with_app pair) by (by rewrite length_seq).
Qed.

Lemma cls_id_mapper_snoc (names : list string) (name : string) :
  cls_id_mapper (names ++ [name])
  = <[name := length names]> (cls_id_mapper names).
Proof. unfold cls_id_mapper. by rewrite enumerate_snoc, foldl_snoc. Qed.

(** X5. The name-to-id mapping sends a class name to its position in the
    list of class names, to its last position when the name is repeated,
    and has no entry for any other name. *)
Theorem cls_id_mapper_lookup (names : list string) (name : string) :
  match cls_id_mapper names !! name with
  | Some cls_id =>
      names !! cls_id = Some name
      ∧ ∀ j, cls_id < j → names !! j ≠ Some name
  | None => name ∉ names
  end.
Proof.
  induction names as [|x names IH] using rev_ind.
  - cbn. apply not_elem_of_nil.
  - rewrite cls_id_mapper_snoc.
    destruct (decide (x = name)) as [->|Hne].
    + rewrite lookup_insert_eq. split.
      * by rewrite lookup_app_r, Nat.sub_diag by lia.
      * intros j Hj. rewrite lookup_ge_None_2; [done|].
        rewrite length_app. cbn. lia.
    + rewrite lookup_insert_ne by done.
      destruct (cls_id_mapper names !! name) as [i|].
      * destruct IH as [Hi Hlast].
        pose proof (lookup_lt_Some _ _ _ Hi) as Hlt.
        split; [by rewrite lookup_app_l|].
        intros j Hj. destruct (decide (j < length names)).
        -- rewrite lookup_app_l by done. by apply Hlast.
        -- rewrite lookup_app_r by lia.
           destruct (j - length names) as [|k]; cbn; [congruence|done].
      * rewrite elem_of_app, list_elem_of_singleton. by intros [?|?].
Qed.

Context {Image : Type}.
Implicit Types (images : list Image) (labels : list Z).

(** The samples of the data set that carry a given label. *)
Local Abbreviation samples_of images labels cls_id :=
  (filter (fun s : Image * Z => s.2 = Z.of_nat cls_id) (zip images labels)).

(** Selecting images and labels with one mask keeps them paired. *)
Lemma mask_select_paired images labels (cls_id : nat) :
  length images = length labels →
  mask_select (map (fun l => bool_decide (l = Z.of_nat cls_id)) labels) images
    = inr (samples_of images labels cls_id).*1
  ∧ mask_select (map (fun l => bool_decide (l = Z.of_nat cls_id)) labels) labels
    = inr (samples_of images labels cls_id).*2.
Proof.
  intros Hlen. unfold mask_select. rewrite !length_map.
  destruct (decide (length labels = length images)) as [_|]; [|congruence].
  destruct (decide (length labels = length labels)) as [_|]; [|done].
  revert labels Hlen. induction images as [|im images IH];
    intros [|l labels] Hlen; simplify_eq/=; [done|].
  destruct (IH labels Hlen) as [IH1 IH2].
  injection IH1 as IH1. injection IH2 as IH2.
  rewrite !filter_cons. cbn [fst snd].
  destruct (decide (l = Z.of_nat cls_id)) as [->|Hne].
  - rewrite bool_decide_eq_true_2 by done.
    destruct (decide (true = true)); [|done]. cbn. by rewrite IH1, IH2.
  - rewrite bool_decide_eq_false_2 by done.
    destruct (decide (false = true)); [done|]. by rewrite IH1, IH2.
Qed.

Lemma collect_known images labels (mapper : gmap string nat)
    (cls_names : list string) (ids : list nat) :
  length images = length labels →
  Forall2 (fun name cls_id => mapper !! name = Some cls_id) cls_names ids →
  ∀ task_images task_labels,
    collect images labels mapper cls_names task_images task_labels
    = inr (task_images ++ map (fun i => (samples_of images labels i).*1) ids,
           task_labels ++ map (fun i => (samples_of images labels i).*2) ids).
Proof.
  intros Hlen Hids.
  induction Hids as [|name cls_id cls_names ids Hname _ IH];
    intros task_images task_labels; cbn [collect map].
  - by rewrite !app_nil_r.
  - rewrite Hname.
    destruct (mask_select_paired images labels cls_id Hlen) as [-> ->].
    rewrite IH, <-!app_assoc. done.
Qed.

Lemma collect_unknown images labels (mapper : gmap string nat)
    (known : list string) (bad : string) (rest : list string) :
  length images = length labels →
  Forall (fun name => is_Some (mapper !! name)) known →
  mapper !! bad = None →
  ∀ task_images task_labels,
    collect images labels mapper (known ++ bad :: rest) task_images task_labels
    = inl (KeyError bad).
Proof.
  intros Hlen Hknown Hbad.
  induction Hknown as [|name known [cls_id Hname] _ IH];
    intros task_images task_labels; cbn [collect app].
  - by rewrite Hbad.
  - rewrite Hname.
    destruct (mask_select_paired images labels cls_id Hlen) as [-> ->].
    apply IH.
Qed.

Lemma zip_concat_fst_snd {A B} (ls : list (list (A * B))) :
  zip (concat (map (fun l => l.*1) ls)) (concat (map (fun l => l.*2) ls))
  = concat ls.
Proof.
  induction ls as [|l ls IH]; [done|]. cbn [map concat].
  rewrite (zip_with_app pair) by (by rewrite !length_fmap).
  by rewrite IH, zip_fst_snd.
Qed.

Lemma known_names_ids (all_names cls_names : list string) :
  Forall (fun name => name ∈ all_names) cls_names →
  ∃ ids,
    Forall2 (fun name cls_id => cls_id_mapper all_names !! name = Some cls_id)
            cls_names ids
    ∧ Forall2 (fun name cls_id => all_names !! cls_id = Some name)
              cls_names ids.
Proof.
  induction 1 as [|name cls_names Hin _ (ids & IH1 & IH2)].
  - by exists [].
  - pose proof (cls_id_mapper_lookup all_names name) as Hm.
    destruct (cls_id_mapper all_names !! name) as [i|] eqn:Hi; [|done].
    exists (i :: ids). split; constructor; [done|done|by destruct Hm|done].
Qed.

(** X6. For a non-empty list of known class names, [task_data_getter]
    returns images and labels of one length, paired as in the data set:
    position by position they are the samples of the first requested class
    in data-set order, then those of the second, and so on.  So every
    returned label is the id of a requested class. *)
Theorem task_data_getter_samples images labels
    (all_names cls_names : list string) :
  length images = length labels →
  cls_names ≠ [] →
  Forall (fun name => name ∈ all_names) cls_names →
  ∃ ids task_images task_labels,
    Forall2 (fun name cls_id => all_names !! cls_id = Some name) cls_names ids
    ∧ task_data_getter images labels all_names cls_names
      = inr (task_images, task_labels)
    ∧ length task_images = length task_labels
    ∧ zip task_images task_labels
      = concat (map (fun i => samples_of images labels i) ids)
    ∧ Forall (fun l => ∃ cls_id, cls_id ∈ ids ∧ l = Z.of_nat cls_id)
             task_labels.
Proof.
  intros Hlen Hne Hknown.
  destruct (known_names_ids all_names cls_names Hknown) as (ids & Hmap & Hids).
  exists ids. unfold task_data_getter.
  rewrite (collect_known images labels _ cls_names ids Hlen Hmap). cbn [app].
  assert (Hids_ne : ids ≠ []).
  { destruct Hmap; [done|discriminate]. }
  unfold np_concatenate.
  destruct ids as [|i ids]; [done|]. cbn [map].
  set (ls := map (fun i => samples_of images labels i) (i :: ids)).
  eexists _, _. split; [done|]. split; [reflexivity|].
  assert (Hfst : (samples_of images labels i).*1
                   :: map (fun i => (samples_of images labels i).*1) ids
                 = map (fun l => l.*1) ls).
  { subst ls. cbn [map]. f_equal. by rewrite map_map. }
  assert (Hsnd : (samples_of images labels i).*2
                   :: map (fun i => (samples_of images labels i).*2) ids
                 = map (fun l => l.*2) ls).
  { subst ls. cbn [map]. f_equal. by rewrite map_map. }
  rewrite Hfst, Hsnd.
  assert (Hzip := zip_concat_fst_snd ls).
  split; [|split; [exact Hzip|]].
  - clear. induction ls as [|l ls IH]; [done|]. cbn [map concat].
    by rewrite !length_app, !length_fmap, IH.
  - apply Forall_forall. intros l Hl.
    apply list_elem_of_In, in_concat in Hl as (ll & Hll & Hl).
    apply in_map_iff in Hll as (sm & <- & Hsm).
    apply in_map_iff in Hsm as (j & <- & Hj).
    apply list_elem_of_In, list_elem_of_fmap in Hl as ([im lb] & -> & Hs).
    apply list_elem_of_filter in Hs as [Hlb _].
    exists j. split; [by apply list_elem_of_In|done].
Qed.

(** X7. [task_data_getter] fails on the empty list of class names with the
    [ValueError] of [np.concatenate], and on a list with an unknown class
    name with a [KeyError] for the first such name. *)
Theorem task_data_getter_errors images labels
    (all_names known rest : list string) (bad : string) :
  length images = length labels →
  Forall (fun name => name ∈ all_names) known →
  bad ∉ all_names →
  task_data_getter images labels all_names [] = inl ValueError
  ∧ task_data_getter images labels all_names (known ++ bad :: rest)
    = inl (KeyError bad).
Proof.
  intros Hlen Hknown Hbad. split; [done|].
  unfold task_data_getter. rewrite collect_unknown; [done|done| |].
  - eapply Forall_impl; [exact Hknown|]. intros name Hin. cbn.
    pose proof (cls_id_mapper_lookup all_names name) as Hm.
    destruct (cls_id_mapper all_names !! name); [by eexists|done].
  - pose proof (cls_id_mapper_lookup all_names bad) as Hm.
    destruct (cls_id_mapper all_names !! bad) as [i|]; [|done].
    destruct Hm as [Hi _]. exfalso. apply Hbad.
    by eapply list_elem_of_lookup_2.
Qed.

Lemma filter_disjoint_union {A} (P Q R : A → Prop)
    `{∀ x, Decision (P x)} `{∀ x, Decision (Q x)} `{∀ x, Decision (R x)}
    (l : list A) :
  (∀ x, R x ↔ P x ∨ Q x) → (∀ x, P x → Q x → False) →
  filter R l ≡ₚ filter P l ++ filter Q l.
Proof.
  intros HR Hdisj. induction l as [|x l IH]; [done|].
  rewrite !filter_cons.
  pose proof (HR x) as HRx. pose proof (Hdisj x) as Hdx.
  destruct (decide (P x)) as [HP|HP], (decide (Q x)) as [HQ|HQ];
    destruct (decide (R x)) as [Hx|Hx];
    try (exfalso; tauto); cbn.
  - by rewrite IH.
  - rewrite IH. by rewrite Permutation_middle.
  - done.
Qed.

Lemma concat_samples_Permutation (l : list (Image * Z)) (ids : list nat) :
  NoDup ids →
  concat (map (fun i => filter (fun s : Image * Z => s.2 = Z.of_nat i) l) ids)
  ≡ₚ filter (fun s => s.2 ∈ Z.of_nat <$> ids) l.
Proof.
  induction 1 as [|i ids Hi Hnd IH]; cbn [map concat].
  - induction l as [|x l IHl]; [done|].
    rewrite filter_cons. destruct (decide _) as [Hx|]; [|done].
    by apply elem_of_nil in Hx.
  - rewrite IH. symmetry. apply filter_disjoint_union.
    + intros x. rewrite fmap_cons, elem_of_cons. done.
    + intros x Hx [j [Hj Hin]]%list_elem_of_fmap.
      apply Hi. assert (i = j) as -> by lia. done.
Qed.

(** X8. When no class name is requested twice, [task_data_getter] returns
    every sample of the data set whose label is the id of a requested class
    exactly once, and nothing else. *)
Theorem task_data_getter_exactly_once images labels
    (all_names cls_names : list string) :
  length images = length labels →
  cls_names ≠ [] →
  Forall (fun name => name ∈ all_names) cls_names →
  NoDup cls_names →
  ∃ ids task_images task_labels,
    Forall2 (fun name cls_id => all_names !! cls_id = Some name) cls_names ids
    ∧ task_data_getter images labels all_names cls_names
      = inr (task_images, task_labels)
    ∧ zip task_images task_labels
      ≡ₚ filter (fun s => s.2 ∈ Z.of_nat <$> ids) (zip images labels).
Proof.
  intros Hlen Hne Hknown Hnd.
  destruct (task_data_getter_samples images labels all_names cls_names
              Hlen Hne Hknown)
    as (ids & task_images & task_labels & Hids & Hrun & _ & Hzip & _).
  exists ids, task_images, task_labels. split; [done|]. split; [done|].
  rewrite Hzip. apply concat_samples_Permutation.
  clear -Hids Hnd. induction Hids as [|name i cls_names ids Hi Hrest IH].
  - constructor.
  - apply NoDup_cons in Hnd as [Hname Hnd]. constructor; [|by apply IH].
    intros Hin. apply Hname.
    apply list_elem_of_lookup in Hin as [k Hk].
    destruct (Forall2_lookup_r _ _ _ _ _ Hrest Hk) as (name' & Hname' & Hi').
    assert (name' = name) as -> by congruence.
    by eapply list_elem_of_lookup_2.
Qed.

(** ** [Cifar100Dataset] *)

Context {Tensor : Type}.
Variable to_tensor : Image → Tensor.

(** X9. On a data set whose images and labels have one length, as
    [task_data_getter] returns them, [__getitem__] succeeds exactly on the
    indices from [-len] to [len - 1], negative ones counting from the end:
    it returns the transformed image and the label at position
    [index mod len].  Any other index is an [IndexError]. *)
Theorem dataset_getitem_in_range (d : Cifar100Dataset Image Tensor)
    (index : Z) :
  length (ds_images d) = length (ds_labels d) →
  let n := Z.of_nat (dataset_len d) in
  ((- n ≤ index < n)%Z →
   ∃ raw label,
     ds_images d !! Z.to_nat (index mod n) = Some raw
     ∧ ds_labels d !! Z.to_nat (index mod n) = Some label
     ∧ dataset_getitem to_tensor d index
       = inr (ds_transforms d (to_tensor raw), label))
  ∧ (¬ (- n ≤ index < n)%Z →
     dataset_getitem to_tensor d index = inl IndexError).
Proof.
  intros Hlen n. subst n. unfold dataset_len, dataset_getitem, np_item.
  rewrite Hlen. set (n := Z.of_nat (length (ds_labels d))).
  split.
  - intros Hin.
    assert (Hpos : (if decide (index < 0)%Z then (index + n)%Z else index)
                   = (index mod n)%Z).
    { destruct (decide (index < 0)%Z).
      - apply (Z.mod_unique _ _ (-1)); lia.
      - symmetry. apply Z.mod_small. lia. }
    rewrite Hpos.
    pose proof (Z.mod_pos_bound index n ltac:(lia)) as Hb.
    destruct (decide (0 ≤ index mod n < n)%Z); [|lia].
    destruct (lookup_lt_is_Some_2 (ds_images d) (Z.to_nat (index mod n)))
      as [raw Hraw]; [lia|].
    destruct (lookup_lt_is_Some_2 (ds_labels d) (Z.to_nat (index mod n)))
      as [label Hlabel]; [lia|].
    exists raw, label. by rewrite Hraw, Hlabel.
  - intros Hout.
    destruct (decide (index < 0)%Z);
      destruct (decide _) as [?|_]; try lia; done.
Qed.

End Cifar100DataFacts.

(* ===================================================================== *)
(** * Further properties of the incremental model state *)
(* ===================================================================== *)

Section ICaRLScopes.

Import ICaRL.

Context {F Net : Type}.
Variable init_weight : ref -> nat -> nat -> F.

Local Abbreviation World := (ICaRL.World F Net).
Local Abbreviation set_new_task_enter := (ICaRL.set_new_task_enter init_weight).
Local Abbreviation with_set_new_task := (ICaRL.with_set_new_task init_weight).
Local Abbreviation learn_tasks := (ICaRL.learn_tasks init_weight).

Ltac attrs :=
  cbn [fst snd feature_extractor set_current_task learned_classes
       feature_dim linears weight_vectors set_linears
       set_current_weight_vectors nets set_weight_vectors set_nets
       set_previous_feature_extractor previous_feature_extractor
       set_feature_extractor set_learned_classes
       current_weight_vectors exemplar_means current_task].

(** Entering a task scope on a consistent model succeeds, and this is the
    state it leaves. *)
Lemma set_new_task_enter_consistent (task : list string) (w : World) :
  consistent w →
  ∃ fe net Wnew,
    feature_extractor w = Some fe
    ∧ nets w !! fe = Some net
    ∧ length Wnew = length task + length (learned_classes w)
    ∧ set_new_task_enter task w
      = (Ok tt,
         mkWorld (<[fresh (dom (linears w)) := Wnew]> (linears w))
           (<[fresh (dom (nets w)) := net]> (nets w))
           (feature_dim w) (Some fe) (Some (fresh (dom (nets w))))
           (weight_vectors w ++ [fresh (dom (linears w))])
           (Some (fresh (dom (linears w)))) (exemplar_means w) (Some task)
           (learned_classes w)).
Proof.
  intros [(fe & net & Hfe & Hnet) Hlast].
  destruct (last (weight_vectors w)) as [prev|] eqn:Hprev.
  - destruct Hlast as (Wprev & HWprev & Hrows).
    pose proof (set_new_task_enter_warm init_weight task w fe prev net Wprev
                  Hfe Hnet Hprev HWprev Hrows) as Henter.
    cbv zeta in Henter. eexists fe, net, _.
    split; [done|]. split; [done|]. split; [|exact Henter].
    rewrite length_app, length_drop. unfold new_linear.
    rewrite length_map, length_seq. lia.
  - apply last_None in Hprev.
    pose proof (set_new_task_enter_first init_weight task w fe net
                  Hfe Hnet Hprev) as Henter.
    cbv zeta in Henter. rewrite Hprev. eexists fe, net, _.
    split; [done|]. split; [done|]. split; [|exact Henter].
    unfold new_linear. by rewrite length_map, length_seq.
Qed.

(** X10. Entering a task scope snapshots the feature extractor by value:
    [previous_feature_extractor] becomes a new object, different from the
    live extractor and from every object that existed, holding the live
    extractor's parameters; the live extractor stays the active one, and
    overwriting its parameters afterwards does not reach the snapshot. *)
Theorem set_new_task_snapshot (task : list string) (w : World) :
  consistent w →
  ∃ w1 fe snap net,
    set_new_task_enter task w = (Ok tt, w1)
    ∧ feature_extractor w = Some fe
    ∧ feature_extractor w1 = Some fe
    ∧ previous_feature_extractor w1 = Some snap
    ∧ snap ≠ fe
    ∧ nets w !! snap = None
    ∧ nets w !! fe = Some net
    ∧ nets w1 !! fe = Some net
    ∧ nets w1 !! snap = Some net
    ∧ ∀ net', <[fe := net']> (nets w1) !! snap = Some net.
Proof.
  intros Hcons.
  destruct (set_new_task_enter_consistent task w Hcons)
    as (fe & net & Wnew & Hfe & Hnet & _ & Henter).
  assert (Hfresh : nets w !! fresh (dom (nets w)) = None).
  { apply not_elem_of_dom, is_fresh. }
  assert (Hne : fresh (dom (nets w)) ≠ fe) by congruence.
  eexists _, fe, (fresh (dom (nets w))), net.
  split; [exact Henter|]. attrs.
  repeat split; try done.
  - by rewrite lookup_insert_ne.
  - by rewrite lookup_insert_eq.
  - intros net'. rewrite lookup_insert_ne by done.
    by rewrite lookup_insert_eq.
Qed.

(** X11. Entering a task scope appends exactly one weight vector, a new
    object that becomes the active one, and changes no weight vector that
    existed; the learned classes, the prototypes and the feature dimension
    are untouched. *)
Theorem set_new_task_appends_head (task : list string) (w : World) :
  consistent w →
  ∃ w1 l,
    set_new_task_enter task w = (Ok tt, w1)
    ∧ weight_vectors w1 = weight_vectors w ++ [l]
    ∧ current_weight_vectors w1 = Some l
    ∧ linears w !! l = None
    ∧ (∀ l0, l0 ≠ l → linears w1 !! l0 = linears w !! l0)
    ∧ learned_classes w1 = learned_classes w
    ∧ exemplar_means w1 = exemplar_means w
    ∧ feature_dim w1 = feature_dim w
    ∧ current_task w1 = Some task.
Proof.
  intros Hcons.
  destruct (set_new_task_enter_consistent task w Hcons)
    as (fe & net & Wnew & Hfe & Hnet & _ & Henter).
  eexists _, (fresh (dom (linears w))). split; [exact Henter|]. attrs.
  repeat split; try done.
  - apply not_elem_of_dom, is_fresh.
  - intros l0 Hl0. by rewrite lookup_insert_ne.
Qed.

(** X12. On a model without a feature extractor the scope cannot be
    entered: the [with] statement raises [AttributeError], its body does not
    run, and only [current_task] has changed. *)
Theorem set_new_task_without_extractor {A : Type}
    (task : list string) (body : M World A) (w : World) :
  feature_extractor w = None →
  with_set_new_task task body w
  = (Raise AttributeError, set_current_task (Some task) w).
Proof.
  intros Hfe. unfold ICaRL.with_set_new_task, ICaRL.set_new_task_enter,
    bind, gets, modify, raise.
  attrs. by rewrite Hfe.
Qed.

(** Entering fails with a shape error when the last weight vector has
    neither one row per learned class nor a single row. *)
Lemma set_new_task_enter_shape_error (task : list string) (w : World)
    (fe prev : ref) (Wprev : list (list F)) :
  feature_extractor w = Some fe →
  last (weight_vectors w) = Some prev →
  linears w !! prev = Some Wprev →
  length Wprev ≠ length (learned_classes w) →
  length Wprev ≠ 1 →
  (set_new_task_enter task w).1 = Raise RuntimeError
  ∧ learned_classes (set_new_task_enter task w).2 = learned_classes w.
Proof.
  intros Hfe Hlast Hprev Hrows Hone.
  split; [|apply set_new_task_enter_learned_classes].
  assert (Hne : prev ≠ fresh (dom (linears w))).
  { intros Heq. apply (is_fresh (dom (linears w))).
    rewrite <-Heq. apply elem_of_dom. by eexists. }
  assert (Hlen : length (weight_vectors w) ≠ 0).
  { destruct (weight_vectors w); [done|]. cbn. lia. }
  assert (Hidx : reverse (weight_vectors w) !! 0 = Some prev).
  { by rewrite <-head_lookup, head_reverse. }
  unfold ICaRL.set_new_task_enter, deref, index_from_end,
    assign_leading_rows, bind, gets, modify, ret, raise.
  attrs. rewrite Hfe. attrs.
  destruct (decide (length (weight_vectors w) ≠ 0)) as [_|]; [|done].
  rewrite Hidx. attrs.
  rewrite lookup_insert_ne by done. rewrite Hprev. attrs.
  rewrite lookup_insert_eq. attrs.
  assert (Hk : length (learned_classes w)
                 `min` length (new_linear init_weight
                                 (fresh (dom (linears w))) (feature_dim w)
                                 (length task + length (learned_classes w)))
               = length (learned_classes w)).
  { unfold new_linear. rewrite length_map, length_seq. lia. }
  rewrite Hk.
  destruct (decide (length Wprev = length (learned_classes w))); [done|].
  by destruct Wprev as [|r [|r' rest]].
Qed.

(** X13. The task scope is not reentrant: a second [set_new_task] begun
    inside the scope of a first, non-empty task meets a last weight vector
    that is ahead of [learned_classes] and fails with a shape error; the
    inner body never runs, and the outer scope still commits its task. *)
Theorem set_new_task_not_reentrant {A : Type}
    (task1 task2 : list string) (body : M World A) (w : World) :
  consistent w →
  task1 ≠ [] →
  length task1 + length (learned_classes w) ≠ 1 →
  (with_set_new_task task1 (with_set_new_task task2 body) w).1
    = Raise RuntimeError
  ∧ learned_classes
      (with_set_new_task task1 (with_set_new_task task2 body) w).2
    = learned_classes w ++ task1.
Proof.
  intros Hcons Hne Hone.
  destruct (set_new_task_enter_consistent task1 w Hcons)
    as (fe & net & Wnew & Hfe & Hnet & HWnew & Henter).
  match type of Henter with _ = (_, ?s) => remember s as w1 eqn:Hw1 end.
  assert (Hinner : (set_new_task_enter task2 w1).1 = Raise RuntimeError
                   ∧ learned_classes (set_new_task_enter task2 w1).2
                     = learned_classes w1).
  { apply (set_new_task_enter_shape_error task2 w1 fe
             (fresh (dom (linears w))) Wnew); subst w1; attrs.
    - done.
    - by rewrite last_snoc.
    - by rewrite lookup_insert_eq.
    - destruct task1; [done|]. cbn in *. lia.
    - lia. }
  destruct Hinner as [Hr Hl].
  destruct (with_set_new_task_learned_classes init_weight task1
              (with_set_new_task task2 body) w w1 Henter) as [-> ->].
  destruct (set_new_task_enter task2 w1) as [[[]|e] w2] eqn:H2;
    cbn [fst snd] in *; [done|].
  injection Hr as ->.
  destruct (with_set_new_task_not_entered init_weight task2 body w1 w2 _ H2)
    as [-> ->].
  split; [done|]. subst w1. by attrs.
Qed.

(** What one task scope around a training-only body does to the list of
    weight vectors and to the learned classes. *)
Lemma with_set_new_task_heads {A : Type}
    (task : list string) (body : M World A) (w : World) :
  consistent w → trains_only body →
  weight_vectors (with_set_new_task task body w).2
    = weight_vectors w ++ [fresh (dom (linears w))]
  ∧ learned_classes (with_set_new_task task body w).2
    = learned_classes w ++ task.
Proof.
  intros Hcons Hbody.
  destruct (set_new_task_enter_consistent task w Hcons)
    as (fe & net & Wnew & Hfe & Hnet & _ & Henter).
  unfold ICaRL.with_set_new_task, bind. rewrite Henter.
  unfold try_finally, set_new_task_exit, bind, gets, modify.
  match goal with
  | |- context [body ?s] =>
      destruct (Hbody s) as (_ & Hwv & Hlc & _); destruct (body s) as [r w2]
  end.
  unfold set_learned_classes. attrs. cbn [fst snd] in *.
  by rewrite Hwv, Hlc.
Qed.

(** X19. A run over any list of tasks, from a fresh model and with bodies
    that only train, keeps the model consistent whether it completes or is
    cut short by an exception; when it completes there is one weight vector
    per task, [learned_classes] is the concatenation of the tasks, and the
    last weight vector has one row per learned class. *)
Theorem learn_tasks_one_head_per_task
    (body : list string → M World unit) (tasks : list (list string))
    (dim : nat) (backbone : Net) :
  (∀ task, trains_only (body task)) →
  consistent (learn_tasks body tasks (init dim backbone)).2
  ∧ ((learn_tasks body tasks (init dim backbone)).1 = Ok tt →
     length (weight_vectors (learn_tasks body tasks (init dim backbone)).2)
       = length tasks
     ∧ learned_classes (learn_tasks body tasks (init dim backbone)).2
       = concat tasks
     ∧ (tasks ≠ [] →
        ∃ l W,
          last (weight_vectors (learn_tasks body tasks (init dim backbone)).2)
            = Some l
          ∧ linears (learn_tasks body tasks (init dim backbone)).2 !! l
            = Some W
          ∧ length W = length (concat tasks))).
Proof.
  intros Hbody.
  assert (Hgen : ∀ w, consistent w →
            consistent (learn_tasks body tasks w).2
            ∧ ((learn_tasks body tasks w).1 = Ok tt →
               length (weight_vectors (learn_tasks body tasks w).2)
                 = length (weight_vectors w) + length tasks
               ∧ learned_classes (learn_tasks body tasks w).2
                 = learned_classes w ++ concat tasks)).
  { induction tasks as [|task tasks IH]; intros w Hw.
    - cbn. split; [done|]. intros _. split; [lia|by rewrite app_nil_r].
    - unfold ICaRL.learn_tasks. cbn [for_each]. unfold bind.
      fold (learn_tasks body tasks).
      destruct (with_set_new_task_consistent init_weight task (body task) w
                  Hw (Hbody task)) as [Hcons' _].
      destruct (with_set_new_task_heads task (body task) w Hw (Hbody task))
        as [Hwv Hlc].
      destruct (with_set_new_task task (body task) w) as [[[]|e] w2];
        cbn [fst snd] in *; [|done].
      destruct (IH w2 Hcons') as [Hc Hok]. split; [done|].
      intros Hrun. destruct (Hok Hrun) as [Hlen Hl].
      rewrite Hlen, Hl, Hwv, Hlc, length_app, <-app_assoc. cbn. split; [lia|done]. }
  destruct (Hgen (init dim backbone) (init_consistent dim backbone))
    as [Hcons Hok].
  split; [done|]. intros Hrun. destruct (Hok Hrun) as [Hlen Hl].
  cbn [init weight_vectors learned_classes length] in Hlen, Hl.
  rewrite app_nil_l in Hl. split; [done|]. split; [done|].
  intros Hne. destruct Hcons as [_ Hlast].
  destruct (last _) as [l|] eqn:Hl'.
  - destruct Hlast as (W & HW & HlenW). exists l, W.
    split; [done|]. split; [done|]. by rewrite HlenW, Hl.
  - apply last_None in Hl'. rewrite Hl' in Hlen. by destruct tasks.
Qed.

End ICaRLScopes.

(* ===================================================================== *)
(** * Further properties of the scoped swap and of inference *)
(* ===================================================================== *)

Section ICaRLInference.

Import ICaRL.

Context {F Net Batch : Type}.
Variables (fsub fdiv : F → F → F) (norm2 : list F → F) (fltb : F → F → bool).
Variable net_forward : Net → Batch → list (list F).
Variable fdot : list F → list F → F.
Variable init_weight : ref -> nat -> nat -> F.

Local Abbreviation World := (ICaRL.World F Net).
Local Abbreviation get_preds :=
  (ICaRL.get_preds fsub fdiv norm2 fltb net_forward).
Local Abbreviation forward := (ICaRL.forward net_forward fdot).
Local Abbreviation set_new_task_enter := (ICaRL.set_new_task_enter init_weight).
Local Abbreviation with_set_new_task := (ICaRL.with_set_new_task init_weight).

(** Writing an attribute back to the value it holds changes nothing. *)
Lemma restore_attributes (w : World) fe' wv' :
  set_current_weight_vectors (current_weight_vectors w)
    (set_feature_extractor (feature_extractor w)
       (set_current_weight_vectors wv' (set_feature_extractor fe' w)))
  = w.
Proof. by destruct w. Qed.

(** X14. [use_previous_model] without an explicit weight vector needs two
    weight vectors: with fewer, the [with] statement raises [IndexError]
    before its body runs and leaves the whole model state as it was. *)
Theorem use_previous_model_needs_two_heads {A : Type}
    (fe : option ref) (body : M World A) (w : World) :
  length (weight_vectors w) < 2 →
  with_use_previous_model fe None body w = (Raise IndexError, w).
Proof.
  intros Hlen.
  assert (Hidx : reverse (weight_vectors w) !! 1 = None).
  { apply lookup_ge_None_2. rewrite length_reverse. lia. }
  unfold with_use_previous_model, try_finally, index_from_end, bind, gets,
    modify, ret, raise.
  cbn [fst snd weight_vectors set_feature_extractor]. rewrite Hidx.
  cbn [fst snd]. f_equal. by destruct w.
Qed.

(** [get_preds] reads the model and writes nothing. *)
Lemma get_preds_pure (image : Batch) (w : World) :
  (get_preds image w).2 = w.
Proof.
  unfold ICaRL.get_preds, deref, torch_cat, bind, gets, ret, raise.
  repeat (case_match; simplify_eq/=; try done).
Qed.


Lemma argmin_from_bound (l : list F) :
  ∀ best_i best i,
    best_i < i →
    ICaRL.argmin_from fltb best_i best i l < i + length l.
Proof.
  induction l as [|x l IH]; intros best_i best i Hlt; cbn [ICaRL.argmin_from length].
  - lia.
  - destruct (fltb x best).
    + specialize (IH i x (S i) ltac:(lia)). lia.
    + specialize (IH best_i best (S i) ltac:(lia)). lia.
Qed.

Lemma argmin_bound (l : list F) : l ≠ [] → ICaRL.argmin fltb l < length l.
Proof.
  destruct l as [|x l]; [done|]. intros _. cbn [ICaRL.argmin length].
  pose proof (argmin_from_bound l 0 x 1 ltac:(lia)). lia.
Qed.

(** X16. Whenever [get_preds] returns, it returns one prediction per
    embedding row and every prediction is the position of a stored
    prototype, whatever the comparison of distances does (no assumption on
    the order, so also in the presence of NaN). *)
Theorem get_preds_in_range (image : Batch) (w w' : World)
    (preds : list nat) :
  get_preds image w = (Ok preds, w') →
  ∃ fe net,
    feature_extractor w = Some fe
    ∧ nets w !! fe = Some net
    ∧ length preds = length (net_forward net image)
    ∧ Forall (fun i => i < length (exemplar_means w)) preds.
Proof.
  unfold ICaRL.get_preds, deref, torch_cat, bind, gets, ret, raise.
  cbn [fst snd].
  destruct (feature_extractor w) as [fe|]; [|done]. cbn [fst snd].
  destruct (nets w !! fe) as [net|] eqn:Hnet; [|done]. cbn [fst snd].
  destruct (map snd (exemplar_means w)) as [|r rest] eqn:Hrows;
    cbv beta iota; [done|].
  destruct (forallb _ rest); cbv beta iota; [|done].
  destruct (decide _); cbv beta iota; [|done].
  intros [= <- <-]. exists fe, net. split; [done|]. split; [done|].
  split; [by rewrite !length_map|].
  apply Forall_forall. intros i Hi.
  apply list_elem_of_In, in_map_iff in Hi as (f & <- & _).
  assert (Hlen : length (exemplar_means w) = length (r :: rest)).
  { by rewrite <-Hrows, length_map. }
  rewrite Hlen.
  pose proof (argmin_bound (map (distance fsub norm2 f) (r :: rest))
                ltac:(done)) as Hb.
  by rewrite length_map in Hb.
Qed.


(** X18. [forward] needs an active weight vector: on a fresh model, before
    any task scope, it raises [TypeError].  Inside the scope of a task,
    entered on a consistent model, it returns for a batch whose embeddings
    have the feature dimension one row of logits per example, each with
    [len(learned_classes) + len(task)] entries: one per class learned so far
    and per class of the task being learned. *)
Theorem forward_logits (task : list string) (image : Batch) (w : World)
    (dim : nat) (backbone : Net) :
  consistent w →
  (∀ fe net, feature_extractor w = Some fe → nets w !! fe = Some net →
             Forall (fun row => length row = feature_dim w)
               (net_forward net image)) →
  (forward image (init dim backbone)).1 = Raise TypeError
  ∧ ∃ w1 logits,
      set_new_task_enter task w = (Ok tt, w1)
      ∧ forward image w1 = (Ok logits, w1)
      ∧ (∃ fe net, feature_extractor w = Some fe ∧ nets w !! fe = Some net
                   ∧ length logits = length (net_forward net image))
      ∧ Forall (fun row => length row
                           = length (learned_classes w) + length task)
               logits.
Proof.
  intros Hcons Hwidth. split.
  { unfold ICaRL.forward, deref, bind, gets, raise, ret.
    cbn [init feature_extractor nets fst snd].
    by rewrite lookup_singleton_eq. }
  destruct (set_new_task_enter_consistent init_weight task w Hcons)
    as (fe & net & Wnew & Hfe & Hnet & HWnew & Henter).
  assert (Hne : fresh (dom (nets w)) ≠ fe).
  { intros Heq. apply (is_fresh (dom (nets w))).
    rewrite Heq. apply elem_of_dom. by eexists. }
  eexists _, _. split; [exact Henter|]. split.
  { unfold ICaRL.forward, deref, linear, bind, gets, raise, ret.
    cbn [fst snd feature_extractor nets current_weight_vectors linears
         feature_dim].
    rewrite lookup_insert_ne by done. rewrite Hnet.
    cbn [fst snd feature_extractor nets current_weight_vectors linears
         feature_dim].
    rewrite lookup_insert_eq.
    cbn [fst snd feature_extractor nets current_weight_vectors linears
         feature_dim].
    destruct (decide _) as [_|Hno]; [reflexivity|].
    exfalso. by apply Hno, (Hwidth fe net). }
  split.
  { exists fe, net. split; [done|]. split; [done|]. by rewrite length_map. }
  apply Forall_forall. intros row Hrow.
  apply list_elem_of_In, in_map_iff in Hrow as (f & <- & _).
  rewrite length_map. lia.
Qed.

End ICaRLInference.

(* ===================================================================== *)
(** * Further properties of the training epochs and the task learner *)
(* ===================================================================== *)

Section MainEpochs.

Import Main.

Context {Model Batch Figure : Type}.
Variable train_step : Model → Batch → Q * Model.
Variable batch_perf : Model → Batch → nat → Q.
Variable num_learned : Model → nat.
Variable sink : list (event Figure * option exn) → event Figure → option exn.

Local Abbreviation World := (Main.World Model Figure).
Local Abbreviation emit := (Main.emit (Model:=Model) sink).
Local Abbreviation train_epoch :=
  (Main.train_epoch train_step (Figure:=Figure)).
Local Abbreviation test_epoch :=
  (Main.test_epoch batch_perf num_learned (Figure:=Figure)).
Local Abbreviation task_learner :=
  (Main.task_learner train_step batch_perf num_learned sink).

(** The performances [test_epoch] collects: the model is only read. *)
Lemma test_epoch_performance (test_loader : list Batch) (n : nat) (w : World) :
  ∀ acc,
    fold_each test_loader acc (fun performance batch =>
      let* m := gets model in
      ret (performance
             ++ [batch_perf m batch (num_learned m + n)])) w
    = (Ok (acc ++ map (fun batch =>
                         batch_perf (model w) batch (num_learned (model w) + n))
                      test_loader), w).
Proof.
  induction test_loader as [|batch test_loader IH]; intros acc;
    cbn [fold_each map].
  - by rewrite app_nil_r.
  - unfold bind at 1 2, gets at 1, ret at 1. rewrite IH, <-app_assoc. done.
Qed.

Lemma test_epoch_value (test_loader : list Batch) (n : nat) (w : World) :
  test_loader ≠ [] →
  test_epoch test_loader n w
  = (Ok (foldl Qplus 0%Q
           (map (fun batch =>
                   batch_perf (model w) batch (num_learned (model w) + n))
                test_loader)
         / inject_Z (Z.of_nat (length test_loader)))%Q, w).
Proof.
  intros Hne. unfold Main.test_epoch. unfold bind at 1.
  rewrite test_epoch_performance. cbn [app].
  rewrite length_map.
  destruct (decide (length test_loader = 0)) as [H0|_]; [|done].
  by destruct test_loader.
Qed.

(** The training steps of one epoch: only the model changes. *)
Lemma train_epoch_steps (train_loader : list Batch) (w : World) :
  ∀ total,
    ∃ total' m',
      fold_each train_loader total (fun total_loss batch =>
        let* m := gets model in
        let '(loss, m') := train_step m batch in
        modify (set_model m') ;;
        ret (total_loss + loss)%Q) w
      = (Ok total', set_model m' w).
Proof.
  induction train_loader as [|batch train_loader IH] in w |- *; intros total;
    cbn [fold_each].
  - exists total, (model w). unfold ret. by destruct w.
  - unfold bind at 1 2, gets at 1.
    destruct (train_step (model w) batch) as [loss m1].
    unfold bind at 1, modify at 1, ret at 1.
    destruct (IH (set_model m1 w) (total + loss)%Q) as (total' & m' & ->).
    by exists total', m'.
Qed.

Lemma train_epoch_returns (train_loader : list Batch) (w : World) :
  train_loader ≠ [] →
  ∃ loss m', train_epoch train_loader w = (Ok loss, set_model m' w).
Proof.
  intros Hne. unfold Main.train_epoch. unfold bind at 1.
  destruct (train_epoch_steps train_loader w 0%Q) as (total & m' & ->).
  destruct (decide (length train_loader = 0)) as [H0|_].
  - by destruct train_loader.
  - by eexists _, m'.
Qed.


Lemma Qsum_bounds (xs : list Q) :
  Forall (fun x => 0 <= x <= 1)%Q xs →
  ∀ acc k, (0 <= acc <= inject_Z (Z.of_nat k))%Q →
    (0 <= foldl Qplus acc xs <= inject_Z (Z.of_nat (k + length xs)))%Q.
Proof.
  induction 1 as [|x xs [Hx0 Hx1] _ IH]; intros acc k [Ha0 Ha1];
    cbn [foldl length].
  - by rewrite Nat.add_0_r.
  - replace (k + S (length xs)) with (S k + length xs) by lia.
    apply IH. split.
    + rewrite <-(Qplus_0_l 0). by apply Qplus_le_compat.
    + rewrite Nat2Z.inj_succ, <-Z.add_1_r, inject_Z_plus.
      by apply Qplus_le_compat.
Qed.

(** X21. On a non-empty loader [test_epoch] returns the plain average of
    the per-batch performances measured on the current model (every batch
    weighs the same, whatever its size); when each of them lies between 0
    and 1, so does the result. *)
Theorem test_epoch_average (test_loader : list Batch) (n : nat) (w : World) :
  test_loader ≠ [] →
  (∀ m batch k, 0 <= batch_perf m batch k <= 1)%Q →
  ∃ acc,
    test_epoch test_loader n w = (Ok acc, w)
    ∧ acc = (foldl Qplus 0%Q
               (map (fun batch =>
                       batch_perf (model w) batch
                         (num_learned (model w) + n)) test_loader)
             / inject_Z (Z.of_nat (length test_loader)))%Q
    ∧ (0 <= acc <= 1)%Q.
Proof.
  intros Hne Hperf. eexists. split; [by apply test_epoch_value|].
  split; [done|].
  set (perf := map _ test_loader).
  assert (Hb : (0 <= foldl Qplus 0 perf
                <= inject_Z (Z.of_nat (0 + length perf)))%Q).
  { apply Qsum_bounds; [|done].
    apply Forall_forall. intros x Hx.
    apply list_elem_of_In, in_map_iff in Hx as (b & <- & _). apply Hperf. }
  assert (Hlen : length perf = length test_loader) by apply length_map.
  rewrite Nat.add_0_l, Hlen in Hb.
  assert (Hpos : (0 < inject_Z (Z.of_nat (length test_loader)))%Q).
  { rewrite <-(Zlt_Qlt 0). destruct test_loader; [done|]. cbn. lia. }
  destruct Hb as [Hb0 Hb1]. split.
  - apply Qle_shift_div_l; [done|]. by rewrite Qmult_0_l.
  - apply Qle_shift_div_r; [done|]. by rewrite Qmult_1_l.
Qed.

End MainEpochs.

Section MainLearner.

Import Main.

Context {Model Batch Figure : Type}.
Variable train_step : Model → Batch → Q * Model.
Variable batch_perf : Model → Batch → nat → Q.
Variable num_learned : Model → nat.
Variable sink : list (event Figure * option exn) → event Figure → option exn.

Local Abbreviation World := (Main.World Model Figure).
Local Abbreviation emit := (Main.emit (Model:=Model) sink).
Local Abbreviation task_learner :=
  (Main.task_learner train_step batch_perf num_learned sink).

(** The epochs of the task learner keep any invariant that [emit] and the
    update of the model keep. *)
Lemma epochs_post (I : World → Prop) (E : exn → World → Prop)
    (task_id : Z) (n : nat) (train_loader test_loader : list Batch) :
  (∀ e w, I w → E e w) →
  (∀ v w, I w → I (set_model v w)) →
  (∀ e, hoare I (emit e) (post I E)) →
  hoare I
    (for_each (range (Z.of_nat 50)) (fun epoch =>
       let* train_loss := Main.train_epoch train_step train_loader in
       let* test_acc :=
         Main.test_epoch batch_perf num_learned test_loader n in
       (if decide ((epoch + 1) mod (50 / 5) = 0)
        then emit (Info_epoch 50 (epoch + 1) train_loss test_acc)
        else ret tt) ;;
       emit (Add_scalar "task-learning/train-loss" train_loss
               (Z.of_nat epoch + task_id * Z.of_nat 50)) ;;
       emit (Add_scalar "task-learning/test-top1-acc" test_acc
               (Z.of_nat epoch + task_id * Z.of_nat 50))))
    (post I E).
Proof.
  intros I_E I_model I_emit.
  apply post_for_each. intros epoch.
  apply post_bind; [by apply train_epoch_post|]. intros train_loss.
  apply post_bind; [by apply test_epoch_post|]. intros test_acc.
  apply post_bind; [case_decide; [apply I_emit|apply post_ret]|].
  intros _. apply post_bind; [apply I_emit|]. intros _. apply I_emit.
Qed.

(** X22. The bookkeeping of the task learner.  When it returns, it returns
    the model object, [num_task_learned] has grown by one, and
    [hparams_dict] has received the six optimizer settings if this was the
    first task learned and is unchanged otherwise.  When it raises, neither
    [num_task_learned] nor [hparams_dict] has changed. *)
Theorem task_learner_bookkeeping (task_id : Z) (n : nat)
    (train_loader test_loader : list Batch) (w : World) :
  match (task_learner task_id n train_loader test_loader w).1 with
  | Ok m =>
      m = model (task_learner task_id n train_loader test_loader w).2
      ∧ num_task_learned (task_learner task_id n train_loader test_loader w).2
        = num_task_learned w + 1
      ∧ hparams_dict (task_learner task_id n train_loader test_loader w).2
        = if decide (num_task_learned w = 0)
          then <["dampening" := HInt 0]>
                 (<["weight_decay" := HInt 0]>
                    (<["momentum" := HFloat (9 # 10)]>
                       (<["lr" := HFloat (1 # 1000)]>
                          (<["optim" := HStr "SGD"]>
                             (<["num_epoch" := HInt 50]>
                                (hparams_dict w))))))
          else hparams_dict w
  | Raise _ =>
      num_task_learned (task_learner task_id n train_loader test_loader w).2
        = num_task_learned w
      ∧ hparams_dict (task_learner task_id n train_loader test_loader w).2
        = hparams_dict w
  end.
Proof.
  pose proof (epochs_post
                (fun s => num_task_learned s = num_task_learned w
                          ∧ hparams_dict s = hparams_dict w)
                (fun _ s => num_task_learned s = num_task_learned w
                            ∧ hparams_dict s = hparams_dict w)
                task_id n train_loader test_loader
                ltac:(done) ltac:(done)) as Hloop.
  assert (Hemit : ∀ e,
            hoare (fun s : World => num_task_learned s = num_task_learned w
                                    ∧ hparams_dict s = hparams_dict w)
              (emit e)
              (post (fun s => num_task_learned s = num_task_learned w
                              ∧ hparams_dict s = hparams_dict w)
                    (fun _ s => num_task_learned s = num_task_learned w
                                ∧ hparams_dict s = hparams_dict w))).
  { intros e s Hs. unfold Main.emit. by destruct (sink (trace s) e). }
  specialize (Hloop Hemit w (conj eq_refl eq_refl)).
  unfold post in Hloop.
  remember (task_learner task_id n train_loader test_loader w) as out
    eqn:Hout.
  unfold Main.task_learner in Hout. cbv zeta in Hout.
  unfold bind at 1 in Hout.
  match type of Hloop with
  | context [for_each ?xs ?body w] =>
      destruct (for_each xs body w) as [[[]|e] w1]
  end; cbn [fst snd] in *; subst out; cbn [fst snd]; [|done].
  destruct Hloop as [Hnum Hhp].
  unfold bind, gets, modify, ret. cbn [fst snd].
  change (Z.of_nat 50) with 50%Z.
  destruct (decide (num_task_learned w1 = 0)) as [H0|H0];
    destruct (decide (num_task_learned w = 0)) as [H0'|H0']; try lia;
    cbn [fst snd model num_task_learned hparams_dict set_hparams_dict
         set_num_task_learned]; rewrite ?Hnum, ?Hhp; done.
Qed.

Lemma emit_accepted (e : event Figure) (w : World) :
  (∀ tr e, sink tr e = None) →
  emit e w = (Ok tt, set_trace (trace w ++ [(e, None)]) w).
Proof. intros Hsink. unfold Main.emit. by rewrite Hsink. Qed.

(** The epochs with a sink that takes every call and loaders that are not
    empty: they complete, having changed the model and made two calls on
    the sink per epoch and a third every tenth epoch. *)
Lemma epochs_return (task_id : Z) (n : nat)
    (train_loader test_loader : list Batch) (epochs : list nat) :
  (∀ tr e, sink tr e = None) →
  train_loader ≠ [] → test_loader ≠ [] →
  ∀ w : World,
    ∃ m' events,
      for_each epochs (fun epoch =>
        let* train_loss := Main.train_epoch train_step train_loader in
        let* test_acc :=
          Main.test_epoch batch_perf num_learned test_loader n in
        (if decide ((epoch + 1) mod 10 = 0)
         then emit (Info_epoch 50 (epoch + 1) train_loss test_acc)
         else ret tt) ;;
        emit (Add_scalar "task-learning/train-loss" train_loss
                (Z.of_nat epoch + task_id * Z.of_nat 50)) ;;
        emit (Add_scalar "task-learning/test-top1-acc" test_acc
                (Z.of_nat epoch + task_id * Z.of_nat 50))) w
      = (Ok tt, set_trace (trace w ++ events) (set_model m' w))
      ∧ length events
        = sum_list (map (fun epoch =>
                           if decide ((epoch + 1) mod 10 = 0) then 3 else 2)
                        epochs)
      ∧ Forall (fun ev => ev.2 = None) events.
Proof.
  intros Hsink Htrain Htest.
  induction epochs as [|epoch epochs IH]; intros w.
  - exists (model w), []. cbn. rewrite app_nil_r. split; [|done].
    unfold ret. by destruct w.
  - destruct (train_epoch_returns train_step train_loader w Htrain)
      as (loss & m1 & Htr).
    pose proof (test_epoch_value batch_perf num_learned test_loader n
                  (set_model m1 w) Htest) as Hte.
    set (acc := (foldl Qplus 0%Q _ / _)%Q) in Hte.
    set (step := (Z.of_nat epoch + task_id * Z.of_nat 50)%Z).
    set (logged := if decide ((epoch + 1) mod 10 = 0)
                   then [(Info_epoch (Figure:=Figure) 50 (epoch + 1) loss acc,
                          @None exn)]
                   else []).
    set (new := logged
                ++ [(Add_scalar "task-learning/train-loss" loss step, None);
                    (Add_scalar "task-learning/test-top1-acc" acc step, None)]).
    destruct (IH (set_trace (trace w ++ new) (set_model m1 w)))
      as (m' & events & Hrest & Hlen & Hacc).
    exists m', (new ++ events). split; [|split].
    + cbn [for_each]. unfold bind at 1 2. rewrite Htr.
      unfold bind at 1. rewrite Hte.
      unfold bind at 1 2. subst new logged.
      destruct (decide ((epoch + 1) mod 10 = 0)).
      * repeat (rewrite emit_accepted by done; cbn [trace set_trace]).
        match type of Hrest with
        | for_each _ _ ?s' = _ =>
            match goal with
            | |- for_each _ _ ?s = _ =>
                replace s with s'
                  by (unfold set_trace, set_model;
                      cbn [trace model cl_matrix hparams_dict
                           num_task_learned];
                      by rewrite <-!app_assoc)
            end
        end.
        rewrite Hrest. unfold set_trace, set_model.
        cbn [trace model cl_matrix hparams_dict num_task_learned].
        by rewrite <-!app_assoc.
      * unfold ret at 1.
        repeat (rewrite emit_accepted by done; cbn [trace set_trace]).
        match type of Hrest with
        | for_each _ _ ?s' = _ =>
            match goal with
            | |- for_each _ _ ?s = _ =>
                replace s with s'
                  by (unfold set_trace, set_model;
                      cbn [trace model cl_matrix hparams_dict
                           num_task_learned];
                      by rewrite <-!app_assoc)
            end
        end.
        rewrite Hrest. unfold set_trace, set_model.
        cbn [trace model cl_matrix hparams_dict num_task_learned].
        by rewrite <-!app_assoc.
    + rewrite length_app, Hlen. cbn [map sum_list]. subst new logged.
      destruct (decide ((epoch + 1) mod 10 = 0)); reflexivity.
    + apply Forall_app. split; [|done]. subst new logged.
      destruct (decide _); by repeat constructor.
Qed.

(** X23. With a sink that takes every call and loaders that are not empty,
    the task learner returns the model after fifty epochs, having made
    exactly 105 calls on the sink (two scalars per epoch and a log line
    every tenth epoch), all of them taken. *)
Theorem task_learner_returns (task_id : Z) (n : nat)
    (train_loader test_loader : list Batch) (w : World) :
  (∀ tr e, sink tr e = None) →
  train_loader ≠ [] → test_loader ≠ [] →
  ∃ m events,
    (task_learner task_id n train_loader test_loader w).1 = Ok m
    ∧ model (task_learner task_id n train_loader test_loader w).2 = m
    ∧ trace (task_learner task_id n train_loader test_loader w).2
      = trace w ++ events
    ∧ length events = 105
    ∧ Forall (fun ev => ev.2 = None) events.
Proof.
  intros Hsink Htrain Htest.
  destruct (epochs_return task_id n train_loader test_loader
              (range (Z.of_nat 50)) Hsink Htrain Htest w)
    as (m' & events & Hloop & Hlen & Hacc).
  exists m', events.
  remember (task_learner task_id n train_loader test_loader w) as out
    eqn:Hout.
  unfold Main.task_learner in Hout. cbv zeta in Hout.
  change (50 / 5) with 10 in Hout.
  unfold bind at 1 in Hout. rewrite Hloop in Hout.
  unfold bind, gets, modify, ret in Hout. cbn [fst snd] in Hout.
  subst out.
  destruct (decide _); cbn [fst snd model trace set_trace set_model
                            set_hparams_dict set_num_task_learned];
    (split; [done|]; split; [done|]; split; [done|]; split; [|done]);
    rewrite Hlen; reflexivity.
Qed.

End MainLearner.

(* ===================================================================== *)
(** * Further properties of the continual-learning evaluator *)
(* ===================================================================== *)

Section MainTester.

Import Main.

Context {Model Batch Figure : Type}.
Variable plot_matrix : list (list Q) → Z → result Figure.
Variables get_backward_transfer get_forgetting_rate
          get_last_setp_accuracy get_average_incremental_accuracy
  : list (list Q) → result Q.
Variable wname : string.
Variable sink : list (event Figure * option exn) → event Figure → option exn.

Local Abbreviation World := (Main.World Model Figure).
Local Abbreviation emit := (Main.emit (Model:=Model) sink).
Local Abbreviation continual_learning_ability_tester :=
  (Main.continual_learning_ability_tester (Model:=Model) (Batch:=Batch)
     plot_matrix get_backward_transfer get_forgetting_rate
     get_last_setp_accuracy get_average_incremental_accuracy wname sink).

(** X24. A task index outside the matrix is caught by the first line the
    evaluator logs: with at least one loader and a task index that is not in
    [[-n, n)] for the [n x n] matrix, the call raises [IndexError] before
    any call on the sink and leaves the state as it was. *)
Theorem continual_learning_ability_tester_index_error (task_id : Z)
    (learned_tasks : list (list string))
    (learned_task_loaders : list (list Batch)) (n : nat) (w : World) :
  length (cl_matrix w) = n →
  Forall (fun row => length row = n) (cl_matrix w) →
  learned_task_loaders ≠ [] →
  ¬ (- Z.of_nat n ≤ task_id < Z.of_nat n)%Z →
  continual_learning_ability_tester task_id learned_tasks
    learned_task_loaders w
  = (Raise IndexError, w).
Proof.
  intros Hlen Hrows Hne Hout.
  destruct learned_task_loaders as [|loader loaders]; [done|].
  unfold Main.continual_learning_ability_tester.
  cbn [length seq for_each]. unfold bind at 1 2 3, gets at 1.
  unfold np_get2, np_index. unfold bind at 1. rewrite Hlen.
  destruct (decide (0 ≤ Z.of_nat 0 < Z.of_nat n)%Z) as [Hn|Hn].
  - unfold ret at 1. unfold bind at 1.
    assert (Hhd : length (hd [] (cl_matrix w)) = n).
    { destruct (cl_matrix w) as [|r a]; [cbn in *; lia|].
      by apply Forall_cons in Hrows as [? _]. }
    rewrite Hhd.
    destruct (decide (0 ≤ task_id < Z.of_nat n)%Z); [lia|].
    destruct (decide (- Z.of_nat n ≤ task_id < 0)%Z); [lia|]. done.
  - destruct (decide (- Z.of_nat n ≤ Z.of_nat 0 < 0)%Z); [lia|]. done.
Qed.

(** The logging loop with a sink that takes every call: one line per
    loader. *)
Lemma test_loop_log (task_id : Z) (learned_tasks : list (list string))
    (n : nat) (xs : list nat) :
  (∀ tr e, sink tr e = None) →
  (0 ≤ task_id < Z.of_nat n)%Z →
  Forall (fun i => i < n ∧ i < length learned_tasks) xs →
  ∀ w : World,
    length (cl_matrix w) = n →
    Forall (fun row => length row = n) (cl_matrix w) →
    ∃ events,
      for_each xs (fun i =>
        let* a := gets cl_matrix in
        let* acc := np_get2 a (Z.of_nat i) task_id in
        let* task := list_get learned_tasks i in
        emit (Info_test_on_task i acc task)) w
      = (Ok tt, set_trace (trace w ++ events) w)
      ∧ length events = length xs.
Proof.
  intros Hsink Hk. induction xs as [|i xs IH]; intros Hxs w Hlen Hrows.
  - exists []. cbn. rewrite app_nil_r. split; [|done]. by destruct w.
  - apply Forall_cons in Hxs as [[Hi Hi'] Hxs].
    destruct (np_get2_in_range (Figure:=Figure) (cl_matrix w) n i task_id w)
      as [v Hv]; [done..|].
    destruct (lookup_lt_is_Some_2 learned_tasks i Hi') as [task Htask].
    destruct (IH Hxs (set_trace
                        (trace w ++ [(Info_test_on_task i v task, None)]) w))
      as (events & Hrun & Hlen'); [done..|].
    exists ((Info_test_on_task i v task, None) :: events).
    split; [|by cbn; rewrite Hlen'].
    cbn [for_each]. unfold bind at 1 2 3 4, gets at 1, list_get at 1.
    rewrite Hv, Htask. unfold ret at 1, Main.emit at 1. rewrite Hsink.
    rewrite Hrun. cbn [trace set_trace]. unfold set_trace.
    cbn [trace model cl_matrix hparams_dict num_task_learned].
    by rewrite <-app_assoc.
Qed.

(** X25. With collaborators that do their part and a task index within the
    matrix, the evaluator makes one call on the sink per loader, four more
    when the task index is at least one, and a last one that logs the
    figure of the matrix; it changes nothing else of the state. *)
Theorem continual_learning_ability_tester_log (task_id : Z)
    (learned_tasks : list (list string))
    (learned_task_loaders : list (list Batch)) (n : nat) (w : World) :
  (∀ tr e, sink tr e = None) →
  (∀ a k, ∃ figure, plot_matrix a k = Ok figure) →
  (∀ a, ∃ v, get_backward_transfer a = Ok v) →
  (∀ a, ∃ v, get_forgetting_rate a = Ok v) →
  (∀ a, ∃ v, get_last_setp_accuracy a = Ok v) →
  (∀ a, ∃ v, get_average_incremental_accuracy a = Ok v) →
  length (cl_matrix w) = n →
  Forall (fun row => length row = n) (cl_matrix w) →
  (0 ≤ task_id < Z.of_nat n)%Z →
  length learned_task_loaders ≤ n →
  length learned_task_loaders ≤ length learned_tasks →
  ∃ events figure,
    (continual_learning_ability_tester task_id learned_tasks
       learned_task_loaders w).2
    = set_trace (trace w ++ events) w
    ∧ length events
      = length learned_task_loaders
        + (if decide (task_id >= 1)%Z then 4 else 0) + 1
    ∧ last events
      = Some (Add_figure ("cl_matrix/" +:+ wname) figure task_id, None)
    ∧ plot_matrix (cl_matrix w) task_id = Ok figure.
Proof.
  intros Hsink Hplot Hbwt Hforget Hlast Havg Hlen Hrows Hk Hl Hl'.
  destruct (test_loop_log task_id learned_tasks n
              (seq 0 (length learned_task_loaders)) Hsink Hk) with (w := w)
    as (logged & Hloop & Hlogged); [|done|done|].
  { apply Forall_forall. intros i Hi%elem_of_seq. lia. }
  rewrite length_seq in Hlogged.
  unfold Main.continual_learning_ability_tester.
  unfold bind at 1. rewrite Hloop.
  destruct (Hplot (cl_matrix w) task_id) as [figure Hfig].
  destruct (decide (task_id >= 1)%Z) as [Hge|Hlt].
  - set (current := np_leading_block (Z.to_nat (task_id + 1)) (cl_matrix w)).
    destruct (Hbwt current) as [bwt Hb], (Hforget current) as [forget Hf],
      (Hlast current) as [last' Hla], (Havg current) as [avg Ha].
    eexists (logged ++ [_; _; _; _; _]), figure.
    unfold bind, gets, call, Main.emit, ret.
    cbn [fst snd cl_matrix trace set_trace]. fold current.
    rewrite Hb, !Hsink. cbn [fst snd cl_matrix trace set_trace].
    rewrite Hf, !Hsink. cbn [fst snd cl_matrix trace set_trace].
    rewrite Hla, !Hsink. cbn [fst snd cl_matrix trace set_trace].
    rewrite Ha, !Hsink. cbn [fst snd cl_matrix trace set_trace].
    rewrite Hfig, !Hsink. cbn [fst snd cl_matrix trace set_trace].
    split; [|split; [|split]].
    + unfold set_trace.
      cbn [trace model cl_matrix hparams_dict num_task_learned].
      rewrite <-!app_assoc. reflexivity.
    + rewrite length_app, Hlogged. cbn. lia.
    + rewrite last_app. reflexivity.
    + done.
  - eexists (logged ++ [_]), figure.
    unfold bind, gets, call, Main.emit, ret.
    cbn [fst snd cl_matrix trace set_trace].
    rewrite Hfig, !Hsink. cbn [fst snd cl_matrix trace set_trace].
    split; [|split; [|split]].
    + unfold set_trace.
      cbn [trace model cl_matrix hparams_dict num_task_learned].
      rewrite <-!app_assoc. reflexivity.
    + rewrite length_app, Hlogged. cbn. lia.
    + rewrite last_app. reflexivity.
    + done.
Qed.

End MainTester.

(* ===================================================================== *)
(** * The further properties at concrete inputs *)
(* ===================================================================== *)

Lemma task_data_getter_samples_witness :
  ∃ ids task_images task_labels,
    Forall2 (fun name cls_id => ["apple"; "baby"; "bear"] !! cls_id = Some name)
            ["bear"; "apple"] ids
    ∧ Cifar100Data.task_data_getter [10; 11; 12; 13] [0; 1; 0; 2]%Z
        ["apple"; "baby"; "bear"] ["bear"; "apple"]
      = inr (task_images, task_labels)
    ∧ length task_images = length task_labels.
Proof.
  destruct (task_data_getter_samples [10; 11; 12; 13] [0; 1; 0; 2]%Z
              ["apple"; "baby"; "bear"] ["bear"; "apple"])
    as (ids & ims & lbs & Hids & Hrun & Hlen & _).
  - reflexivity.
  - discriminate.
  - repeat constructor; apply (bool_decide_unpack _); vm_compute; exact I.
  - by exists ids, ims, lbs.
Defined.

(** On this input the samples of "bear" come first, then those of "apple"
    in data-set order. *)
Example task_data_getter_order :
  Cifar100Data.task_data_getter [10; 11; 12; 13] [0; 1; 0; 2]%Z
    ["apple"; "baby"; "bear"] ["bear"; "apple"]
  = inr ([13; 10; 12], [2; 0; 0]%Z).
Proof. vm_compute. reflexivity. Qed.

Lemma task_data_getter_errors_witness :
  Cifar100Data.task_data_getter [10; 11; 12; 13] [0; 1; 0; 2]%Z
    ["apple"; "baby"; "bear"] []
  = inl Cifar100Data.ValueError
  ∧ Cifar100Data.task_data_getter [10; 11; 12; 13] [0; 1; 0; 2]%Z
      ["apple"; "baby"; "bear"] (["bear"] ++ "cat" :: ["apple"])
    = inl (Cifar100Data.KeyError "cat").
Proof.
  apply (task_data_getter_errors [10; 11; 12; 13] [0; 1; 0; 2]%Z
           ["apple"; "baby"; "bear"] ["bear"] ["apple"] "cat").
  - reflexivity.
  - repeat constructor; apply (bool_decide_unpack _); vm_compute; exact I.
  - apply (bool_decide_unpack _). vm_compute. exact I.
Defined.

Lemma task_data_getter_exactly_once_witness :
  ∃ ids task_images task_labels,
    Forall2 (fun name cls_id => ["apple"; "baby"; "bear"] !! cls_id = Some name)
            ["bear"; "apple"] ids
    ∧ Cifar100Data.task_data_getter [10; 11; 12; 13] [0; 1; 0; 2]%Z
        ["apple"; "baby"; "bear"] ["bear"; "apple"]
      = inr (task_images, task_labels)
    ∧ zip task_images task_labels
      ≡ₚ filter (fun s => s.2 ∈ Z.of_nat <$> ids)
                (zip [10; 11; 12; 13] [0; 1; 0; 2]%Z).
Proof.
  apply (task_data_getter_exactly_once [10; 11; 12; 13] [0; 1; 0; 2]%Z
           ["apple"; "baby"; "bear"] ["bear"; "apple"]).
  - reflexivity.
  - discriminate.
  - repeat constructor; apply (bool_decide_unpack _); vm_compute; exact I.
  - apply (bool_decide_unpack _). vm_compute. exact I.
Defined.

Lemma dataset_getitem_in_range_witness :
  ((- Z.of_nat 2 ≤ -1 < Z.of_nat 2)%Z →
   ∃ raw label,
     [10; 11] !! Z.to_nat (-1 mod Z.of_nat 2) = Some raw
     ∧ [0; 1]%Z !! Z.to_nat (-1 mod Z.of_nat 2) = Some label
     ∧ Cifar100Data.dataset_getitem (Tensor:=nat) S
         (Cifar100Data.mkDataset [10; 11] [0; 1]%Z (fun t => t)) (-1)
       = inr (S raw, label))
  ∧ (¬ (- Z.of_nat 2 ≤ -1 < Z.of_nat 2)%Z →
     Cifar100Data.dataset_getitem (Tensor:=nat) S
       (Cifar100Data.mkDataset [10; 11] [0; 1]%Z (fun t => t)) (-1)
     = inl Cifar100Data.IndexError).
Proof.
  apply (dataset_getitem_in_range (Tensor:=nat) S
           (Cifar100Data.mkDataset [10; 11] [0; 1]%Z (fun t => t)) (-1)).
  reflexivity.
Defined.

Lemma set_new_task_snapshot_witness :
  ∃ w1 fe snap net,
    ICaRL.set_new_task_enter Demo.init_weight ["apple"] (ICaRL.init 3 tt)
    = (Ok tt, w1)
    ∧ ICaRL.feature_extractor (ICaRL.init (F:=Z) 3 tt) = Some fe
    ∧ ICaRL.feature_extractor w1 = Some fe
    ∧ ICaRL.previous_feature_extractor w1 = Some snap
    ∧ snap ≠ fe
    ∧ ICaRL.nets (ICaRL.init (F:=Z) 3 tt) !! snap = None
    ∧ ICaRL.nets (ICaRL.init (F:=Z) 3 tt) !! fe = Some net
    ∧ ICaRL.nets w1 !! fe = Some net
    ∧ ICaRL.nets w1 !! snap = Some net
    ∧ ∀ net', <[fe := net']> (ICaRL.nets w1) !! snap = Some net.
Proof.
  apply (set_new_task_snapshot Demo.init_weight ["apple"] (ICaRL.init 3 tt)).
  apply init_consistent.
Defined.

Lemma set_new_task_appends_head_witness :
  ∃ w1 l,
    ICaRL.set_new_task_enter Demo.init_weight ["cat"] Demo.trained_once
    = (Ok tt, w1)
    ∧ ICaRL.weight_vectors w1 = ICaRL.weight_vectors Demo.trained_once ++ [l]
    ∧ ICaRL.current_weight_vectors w1 = Some l
    ∧ ICaRL.linears Demo.trained_once !! l = None
    ∧ (∀ l0, l0 ≠ l →
             ICaRL.linears w1 !! l0 = ICaRL.linears Demo.trained_once !! l0)
    ∧ ICaRL.learned_classes w1 = ICaRL.learned_classes Demo.trained_once
    ∧ ICaRL.exemplar_means w1 = ICaRL.exemplar_means Demo.trained_once
    ∧ ICaRL.feature_dim w1 = ICaRL.feature_dim Demo.trained_once
    ∧ ICaRL.current_task w1 = Some ["cat"].
Proof.
  apply (set_new_task_appends_head Demo.init_weight ["cat"] Demo.trained_once).
  apply with_set_new_task_consistent; [apply init_consistent|].
  intros w. repeat split; try reflexivity; intros; eauto.
Defined.

Lemma set_new_task_without_extractor_witness :
  ICaRL.with_set_new_task Demo.init_weight ["apple"] (Demo.body ["apple"])
    (ICaRL.set_feature_extractor None (ICaRL.init 3 tt))
  = (Raise AttributeError,
     ICaRL.set_current_task (Some ["apple"])
       (ICaRL.set_feature_extractor None (ICaRL.init 3 tt))).
Proof.
  apply (set_new_task_without_extractor Demo.init_weight ["apple"]
           (Demo.body ["apple"])
           (ICaRL.set_feature_extractor None (ICaRL.init 3 tt))).
  reflexivity.
Defined.

Lemma set_new_task_not_reentrant_witness :
  (ICaRL.with_set_new_task Demo.init_weight ["apple"; "baby"]
     (ICaRL.with_set_new_task Demo.init_weight ["cat"] (ret tt))
     (ICaRL.init 3 tt)).1 = Raise RuntimeError
  ∧ ICaRL.learned_classes
      (ICaRL.with_set_new_task Demo.init_weight ["apple"; "baby"]
         (ICaRL.with_set_new_task Demo.init_weight ["cat"] (ret tt))
         (ICaRL.init 3 tt)).2
    = ICaRL.learned_classes (ICaRL.init (F:=Z) 3 tt) ++ ["apple"; "baby"].
Proof.
  apply (set_new_task_not_reentrant Demo.init_weight ["apple"; "baby"] ["cat"]
           (ret tt) (ICaRL.init 3 tt)).
  - apply init_consistent.
  - discriminate.
  - cbn. lia.
Defined.

Lemma use_previous_model_needs_two_heads_witness :
  ICaRL.with_use_previous_model None None (ret tt) Demo.trained_once
  = (Raise IndexError, Demo.trained_once).
Proof.
  apply (use_previous_model_needs_two_heads None (ret tt) Demo.trained_once).
  vm_compute. lia.
Defined.


Lemma get_preds_in_range_witness :
  ∃ fe net,
    ICaRL.feature_extractor Demo.with_prototypes = Some fe
    ∧ ICaRL.nets Demo.with_prototypes !! fe = Some net
    ∧ length [0; 1; 0]
      = length (Demo.net_forward net [[10; 0]; [0; 7]; [5; 5]]%Z)
    ∧ Forall (fun i => i < length (ICaRL.exemplar_means Demo.with_prototypes))
             [0; 1; 0].
Proof.
  apply (get_preds_in_range Z.sub Z.div Demo.norm2 Z.ltb Demo.net_forward
           [[10; 0]; [0; 7]; [5; 5]]%Z Demo.with_prototypes
           Demo.with_prototypes [0; 1; 0]).
  vm_compute. reflexivity.
Defined.

Lemma forward_logits_witness :
  (ICaRL.forward Demo.net_forward
     (fun a b => foldr Z.add 0%Z (zip_with Z.mul a b))
     [[1; 2; 3]]%Z (ICaRL.init 3 tt)).1 = Raise TypeError
  ∧ ∃ w1 logits,
      ICaRL.set_new_task_enter Demo.init_weight ["apple"; "baby"]
        (ICaRL.init 3 tt) = (Ok tt, w1)
      ∧ ICaRL.forward Demo.net_forward
          (fun a b => foldr Z.add 0%Z (zip_with Z.mul a b))
          [[1; 2; 3]]%Z w1 = (Ok logits, w1)
      ∧ (∃ fe net,
           ICaRL.feature_extractor (ICaRL.init (F:=Z) 3 tt) = Some fe
           ∧ ICaRL.nets (ICaRL.init (F:=Z) 3 tt) !! fe = Some net
           ∧ length logits = length (Demo.net_forward net [[1; 2; 3]]%Z))
      ∧ Forall (fun row =>
                  length row
                  = length (ICaRL.learned_classes (ICaRL.init (F:=Z) (Net:=unit) 3 tt))
                    + length ["apple"; "baby"])
               logits.
Proof.
  apply (forward_logits Demo.net_forward
           (fun a b => foldr Z.add 0%Z (zip_with Z.mul a b))
           Demo.init_weight ["apple"; "baby"] [[1; 2; 3]]%Z
           (ICaRL.init 3 tt) 3 tt).
  - apply init_consistent.
  - intros fe net _ _. repeat constructor.
Defined.

Lemma learn_tasks_one_head_per_task_witness :
  ICaRL.consistent
    (ICaRL.learn_tasks Demo.init_weight Demo.body [["apple"]; ["dog"]]
       (ICaRL.init 3 tt)).2
  ∧ length (ICaRL.weight_vectors
              (ICaRL.learn_tasks Demo.init_weight Demo.body
                 [["apple"]; ["dog"]] (ICaRL.init 3 tt)).2) = 2
  ∧ ICaRL.learned_classes
      (ICaRL.learn_tasks Demo.init_weight Demo.body [["apple"]; ["dog"]]
         (ICaRL.init 3 tt)).2 = ["apple"; "dog"].
Proof.
  destruct (learn_tasks_one_head_per_task Demo.init_weight Demo.body
              [["apple"]; ["dog"]] 3 tt) as [Hcons Hok].
  - intros task w. unfold Demo.body.
    destruct (decide (task = ["cat"])); repeat split; try reflexivity;
      intros; eauto.
  - split; [exact Hcons|].
    destruct (Hok ltac:(vm_compute; reflexivity)) as (Hlen & Hl & _).
    split; [exact Hlen|exact Hl].
Defined.

Lemma test_epoch_average_witness :
  ∃ acc,
    Main.test_epoch Demo.batch_perf Demo.num_learned (Figure:=unit)
      [tt; tt] 1 (Main.init 2 tt) = (Ok acc, Main.init 2 tt)
    ∧ (0 <= acc <= 1)%Q.
Proof.
  destruct (test_epoch_average Demo.batch_perf Demo.num_learned
              (Figure:=unit) [tt; tt] 1 (Main.init 2 tt))
    as (acc & Hrun & _ & Hb).
  - discriminate.
  - intros m batch k. unfold Demo.batch_perf. split; discriminate.
  - by exists acc.
Defined.

Lemma task_learner_returns_witness :
  ∃ m events,
    (Demo.task_learner Demo.accepting_sink 0 1 [tt] [tt] (Main.init 2 tt)).1
    = Ok m
    ∧ Main.model
        (Demo.task_learner Demo.accepting_sink 0 1 [tt] [tt]
           (Main.init 2 tt)).2 = m
    ∧ Main.trace
        (Demo.task_learner Demo.accepting_sink 0 1 [tt] [tt]
           (Main.init 2 tt)).2
      = Main.trace (Main.init (Model:=unit) (Figure:=unit) 2 tt) ++ events
    ∧ length events = 105
    ∧ Forall (fun ev => ev.2 = None) events.
Proof.
  apply (task_learner_returns Demo.train_step Demo.batch_perf
           Demo.num_learned Demo.accepting_sink 0 1 [tt] [tt]
           (Main.init 2 tt)).
  - reflexivity.
  - discriminate.
  - discriminate.
Defined.

Lemma continual_learning_ability_tester_index_error_witness :
  Demo.continual_learning_ability_tester Demo.accepting_sink 2
    [["apple"]] [[tt]] (Main.init 2 tt)
  = (Raise IndexError, Main.init 2 tt).
Proof.
  apply (continual_learning_ability_tester_index_error
           Demo.plot_matrix Demo.get_backward_transfer
           Demo.get_forgetting_rate Demo.get_last_setp_accuracy
           Demo.get_average_incremental_accuracy "run" Demo.accepting_sink
           2 [["apple"]] [[tt]] 2 (Main.init 2 tt)).
  - reflexivity.
  - repeat constructor.
  - discriminate.
  - lia.
Defined.

Lemma continual_learning_ability_tester_log_witness :
  ∃ events figure,
    (Demo.continual_learning_ability_tester Demo.accepting_sink 1
       [["apple"]; ["baby"]] [[tt]; [tt]] (Main.init 2 tt)).2
    = Main.set_trace
        (Main.trace (Main.init (Model:=unit) (Figure:=unit) 2 tt) ++ events)
        (Main.init 2 tt)
    ∧ length events = 2 + (if decide (1 >= 1)%Z then 4 else 0) + 1
    ∧ last events
      = Some (Main.Add_figure ("cl_matrix/" +:+ "run") figure 1, None)
    ∧ Demo.plot_matrix
        (Main.cl_matrix (Main.init (Model:=unit) (Figure:=unit) 2 tt)) 1
      = Ok figure.
Proof.
  apply (continual_learning_ability_tester_log
           Demo.plot_matrix Demo.get_backward_transfer
           Demo.get_forgetting_rate Demo.get_last_setp_accuracy
           Demo.get_average_incremental_accuracy "run" Demo.accepting_sink
           1 [["apple"]; ["baby"]] [[tt]; [tt]] 2 (Main.init 2 tt)).
  - reflexivity.
  - intros a k. exists tt. reflexivity.
  - intros a. eexists. reflexivity.
  - intros a. eexists. reflexivity.
  - intros a. eexists. reflexivity.
  - intros a. eexists. reflexivity.
  - reflexivity.
  - repeat constructor.
  - lia.
  - simpl. lia.
  - simpl. lia.
Defined.

(** X26. Neither the task learner nor the evaluator ever assigns to the
    accuracy matrix: whatever their arguments, whatever the sink and the
    helpers do and however the call ends, [cl_matrix] is afterwards what it
    was before; so from the state the factory creates it stays the all-zero
    matrix through any call of either. *)
Theorem cl_matrix_never_written {Model Batch Figure : Type}
    (train_step : Model → Batch → Q * Model)
    (batch_perf : Model → Batch → nat → Q) (num_learned : Model → nat)
    (plot_matrix : list (list Q) → Z → result Figure)
    (get_backward_transfer get_forgetting_rate get_last_setp_accuracy
       get_average_incremental_accuracy : list (list Q) → result Q)
    (wname : string)
    (sink : list (Main.event Figure * option exn) → Main.event Figure
            → option exn)
    (task_id : Z) (n : nat) (train_loader test_loader : list Batch)
    (learned_tasks : list (list string))
    (learned_task_loaders : list (list Batch))
    (w : Main.World Model Figure) :
  Main.cl_matrix
    (Main.task_learner train_step batch_perf num_learned sink task_id n
       train_loader test_loader w).2 = Main.cl_matrix w
  ∧ Main.cl_matrix
      (Main.continual_learning_ability_tester plot_matrix
         get_backward_transfer get_forgetting_rate get_last_setp_accuracy
         get_average_incremental_accuracy wname sink task_id learned_tasks
         learned_task_loaders w).2 = Main.cl_matrix w
  ∧ ∀ (task_num : nat) (m : Model),
      Main.cl_matrix
        (Main.continual_learning_ability_tester plot_matrix
           get_backward_transfer get_forgetting_rate get_last_setp_accuracy
           get_average_incremental_accuracy wname sink task_id learned_tasks
           learned_task_loaders (Main.init task_num m)).2
      = Main.np_zeros task_num task_num.
Proof.
  split; [apply task_learner_cl_matrix|].
  split; [apply continual_learning_ability_tester_cl_matrix|].
  intros task_num m.
  by rewrite continual_learning_ability_tester_cl_matrix.
Qed.
